(** * NiceThumbsBuddy: a shallow embedding of the userscript's pure core

    The development follows the sources of the repository:
    - [NiceThumbsBuddy.user.js] (v2.6.0): utilities, autoindex detector,
      listing parser, metadata cache manager;
    - [src/dom.js], [src/config.js]: the modular fragments of the same code;
    - [NiceThumbs,Buddy.user.js] (v2.5.0): the preference helpers;
    - [soulful-thumbs-2.1.1.user.js]: the lightbox;
    - the build script that concatenates the fragments.

    Modelling conventions.
    - A JavaScript string is a [string] (a sequence of 8-bit characters);
      case folding, [trim] and the regular-expression classes [\s], [\d]
      are the ASCII ones.
    - Regular-expression literals are written as terms of [regex] and run by
      a derivative matcher; [RegExp.prototype.test] is a search for a
      matching substring.
    - Browser built-ins that are not part of the repository ([URL],
      [decodeURIComponent], [Intl.Collator], [Math.random]) are parameters
      of the sections that use them.
    - The DOM is a record holding what the selectors of the code read. *)

From Stdlib Require Import ZArith QArith Qminmax Qround String Ascii List Lia Lqa.
From Stdlib Require Import Sorting.Sorted Permutation DecimalString DecimalN DecimalPos Qabs.
From Stdlib Require SpecFloat.
From stdpp Require Import base option list gmap sets strings lexico.

Local Open Scope string_scope.
Local Open Scope list_scope.

(** ** Strings

    Strings are sequences of 8-bit characters and the model covers ASCII
    text: case folding and white space are those of ASCII. JavaScript also
    folds letters outside ASCII and treats U+00A0, U+FEFF, U+2028 and
    U+2029 among others as white space; such text is outside the model. *)

Module Str.

Definition lower_ascii (c : ascii) : ascii :=
  let n := nat_of_ascii c in
  if (65 <=? n)%nat && (n <=? 90)%nat then ascii_of_nat (n + 32) else c.

(** [String.prototype.toLowerCase] *)
Fixpoint toLowerCase (s : string) : string :=
  match s with
  | EmptyString => EmptyString
  | String c s' => String (lower_ascii c) (toLowerCase s')
  end.

(** [String.prototype.startsWith] *)
Fixpoint startsWith (s p : string) : bool :=
  match p, s with
  | EmptyString, _ => true
  | String _ _, EmptyString => false
  | String a p', String b s' => Ascii.eqb a b && startsWith s' p'
  end.

(** [String.prototype.includes] *)
Fixpoint includes (s p : string) : bool :=
  startsWith s p ||
  match s with
  | EmptyString => false
  | String _ s' => includes s' p
  end.

(** White space recognised by [trim] and by [\s]. *)
Definition is_space (c : ascii) : bool :=
  let n := nat_of_ascii c in
  (n =? 32)%nat || ((9 <=? n)%nat && (n <=? 13)%nat).

Fixpoint trimStart (s : string) : string :=
  match s with
  | String c s' => if is_space c then trimStart s' else s
  | EmptyString => EmptyString
  end.

Fixpoint trimEnd (s : string) : string :=
  match s with
  | EmptyString => EmptyString
  | String c s' =>
      match trimEnd s' with
      | EmptyString => if is_space c then EmptyString else String c EmptyString
      | t => String c t
      end
  end.

(** [String.prototype.trim] *)
Definition trim (s : string) : string := trimEnd (trimStart s).

(** [s.split(c)[0]]: the part of [s] before the first [c]. *)
Fixpoint beforeChar (c : ascii) (s : string) : string :=
  match s with
  | EmptyString => EmptyString
  | String a s' => if Ascii.eqb a c then EmptyString else String a (beforeChar c s')
  end.

(** [s.split(c).pop()]: the part of [s] after the last [c]. *)
Fixpoint afterLast (c : ascii) (s : string) : string :=
  match s with
  | EmptyString => EmptyString
  | String a s' =>
      if includes s' (String c EmptyString) then afterLast c s'
      else if Ascii.eqb a c then s' else s
  end.

(** [s.endsWith("/")] and [s.slice(0, -1)] *)
Fixpoint endsWithChar (c : ascii) (s : string) : bool :=
  match s with
  | EmptyString => false
  | String a EmptyString => Ascii.eqb a c
  | String _ s' => endsWithChar c s'
  end.

Fixpoint dropLast (s : string) : string :=
  match s with
  | EmptyString => EmptyString
  | String _ EmptyString => EmptyString
  | String a s' => String a (dropLast s')
  end.

Definition isEmpty (s : string) : bool :=
  match s with EmptyString => true | _ => false end.

End Str.

(** ** Regular expressions *)

Module Re.

Inductive regex : Type :=
| Void
| Eps
| Cls (p : ascii -> bool)
| Cat (r s : regex)
| Alt (r s : regex)
| Star (r : regex).

Fixpoint nullable (r : regex) : bool :=
  match r with
  | Void => false
  | Eps => true
  | Cls _ => false
  | Cat r s => nullable r && nullable s
  | Alt r s => nullable r || nullable s
  | Star _ => true
  end.

Definition cat (r s : regex) : regex :=
  match r, s with
  | Void, _ => Void
  | _, Void => Void
  | Eps, _ => s
  | _, Eps => r
  | _, _ => Cat r s
  end.

Definition alt (r s : regex) : regex :=
  match r, s with
  | Void, _ => s
  | _, Void => r
  | _, _ => Alt r s
  end.

Fixpoint deriv (c : ascii) (r : regex) : regex :=
  match r with
  | Void => Void
  | Eps => Void
  | Cls p => if p c then Eps else Void
  | Cat r s =>
      if nullable r then alt (cat (deriv c r) s) (deriv c s)
      else cat (deriv c r) s
  | Alt r s => alt (deriv c r) (deriv c s)
  | Star r => cat (deriv c r) (Star r)
  end.

(** Does some prefix of [s] match [r]? *)
Fixpoint matchPrefix (r : regex) (s : string) : bool :=
  nullable r ||
  match s with
  | EmptyString => false
  | String c s' => matchPrefix (deriv c r) s'
  end.

(** Does the whole of [s] match [r]? *)
Fixpoint matchAll (r : regex) (s : string) : bool :=
  match s with
  | EmptyString => nullable r
  | String c s' => matchAll (deriv c r) s'
  end.

Fixpoint anywhere (f : string -> bool) (s : string) : bool :=
  f s ||
  match s with
  | EmptyString => false
  | String _ s' => anywhere f s'
  end.

(** [/r/.test(s)] *)
Definition test (r : regex) (s : string) : bool := anywhere (matchPrefix r) s.

(** [/r$/.test(s)] *)
Definition testEnd (r : regex) (s : string) : bool := anywhere (matchAll r) s.

(** Literals. The [i] flag compares characters up to ASCII case. *)
Definition chr (c : ascii) : regex := Cls (Ascii.eqb c).
Definition chrI (c : ascii) : regex :=
  Cls (fun x => Ascii.eqb (Str.lower_ascii x) (Str.lower_ascii c)).

Fixpoint litI (s : string) : regex :=
  match s with
  | EmptyString => Eps
  | String c EmptyString => chrI c
  | String c s' => Cat (chrI c) (litI s')
  end.

Fixpoint alts (rs : list regex) : regex :=
  match rs with
  | [] => Void
  | [r] => r
  | r :: rs' => Alt r (alts rs')
  end.

(** [/w1|w2|.../i] *)
Definition wordsI (ws : list string) : regex := alts (map litI ws).

Definition digit : regex :=
  Cls (fun c => (48 <=? nat_of_ascii c)%nat && (nat_of_ascii c <=? 57)%nat).
Definition alpha : regex :=
  Cls (fun c => let n := nat_of_ascii (Str.lower_ascii c) in
                (97 <=? n)%nat && (n <=? 122)%nat).
Definition space : regex := Cls Str.is_space.
Definition nonspace : regex := Cls (fun c => negb (Str.is_space c)).
Definition plus (r : regex) : regex := Cat r (Star r).
Definition opt (r : regex) : regex := Alt r Eps.

Fixpoint rep (n : nat) (r : regex) : regex :=
  match n with
  | O => Eps
  | S O => r
  | S n' => Cat r (rep n' r)
  end.

Fixpoint seq (rs : list regex) : regex :=
  match rs with
  | [] => Eps
  | [r] => r
  | r :: rs' => Cat r (seq rs')
  end.

End Re.

(** ** Utilities ([NiceThumbsBuddy.user.js], section Utils; [src/dom.js]) *)

Inductive FolderType : Type :=
| video | audio | photo | archive | document | default.

Definition videoTerms : Re.regex :=
  Re.wordsI ["video"; "movie"; "film"; "tv"; "show"; "series"].
Definition audioTerms : Re.regex :=
  Re.wordsI ["audio"; "sound"; "music"; "mp3"; "wav"; "flac"].
Definition photoTerms : Re.regex :=
  Re.wordsI ["photo"; "image"; "picture"; "img"; "jpg"; "camera"; "raw"].
Definition archiveTerms : Re.regex :=
  Re.wordsI ["archive"; "backup"; "old"; "save"].
Definition documentTerms : Re.regex :=
  Re.wordsI ["document"; "doc"; "pdf"; "txt"; "report"].

(** [getFolderType]: the name is lower-cased, then tested against the five
    patterns in order. *)
Definition getFolderType (name : string) : FolderType :=
  let name := Str.toLowerCase name in
  if Re.test videoTerms name then video
  else if Re.test audioTerms name then audio
  else if Re.test photoTerms name then photo
  else if Re.test archiveTerms name then archive
  else if Re.test documentTerms name then document
  else default.

(** The classifier's table, in the order of the [if] chain. *)
Definition folderPatterns : list (FolderType * Re.regex) :=
  [ (video, videoTerms); (audio, audioTerms); (photo, photoTerms);
    (archive, archiveTerms); (document, documentTerms) ].


(** [isFunctionalLink], [isDirHref], [isImgHref], [isFileHref] and [getExt]
    work on strings: the [href] property of an anchor or its attribute. *)

(** [IMG_EXT = /\.(avif|webp|jpe?g|png|gif|bmp|svg)$/i] *)
Definition IMG_EXT : Re.regex :=
  Re.Cat (Re.chr ".")
    (Re.alts [ Re.litI "avif"; Re.litI "webp";
               Re.seq [Re.litI "jp"; Re.opt (Re.chrI "e"); Re.chrI "g"];
               Re.litI "png"; Re.litI "gif"; Re.litI "bmp"; Re.litI "svg" ]).

(** [FILE_EXT = /\.(avif|...|svg|heic|tif?f|mp4|mov|webm|mkv|pdf|zip|rar|7z|tar|gz)$/i] *)
Definition FILE_EXT : Re.regex :=
  Re.Cat (Re.chr ".")
    (Re.alts [ Re.litI "avif"; Re.litI "webp";
               Re.seq [Re.litI "jp"; Re.opt (Re.chrI "e"); Re.chrI "g"];
               Re.litI "png"; Re.litI "gif"; Re.litI "bmp"; Re.litI "svg";
               Re.litI "heic";
               Re.seq [Re.litI "ti"; Re.opt (Re.chrI "f"); Re.chrI "f"];
               Re.litI "mp4"; Re.litI "mov"; Re.litI "webm"; Re.litI "mkv";
               Re.litI "pdf"; Re.litI "zip"; Re.litI "rar"; Re.litI "7z";
               Re.litI "tar"; Re.litI "gz" ]).

Definition isDirHref (href : string) : bool :=
  Str.endsWithChar "/" (Str.beforeChar "?" (Str.beforeChar "#" href)).
Definition isImgHref (href : string) : bool :=
  Re.testEnd IMG_EXT (Str.beforeChar "?" href).
Definition isFileHref (href : string) : bool :=
  Re.testEnd FILE_EXT (Str.beforeChar "?" href).

(** [getExt]: the text after the last dot of the last path segment, in lower
    case, or the empty string when the segment has no dot. *)
Definition getExt (url : string) : string :=
  let filename := Str.afterLast "/" url in
  if Str.includes filename "." then Str.toLowerCase (Str.afterLast "." filename)
  else "".

(** ** The document

    [Anchor] holds what the code reads from an HTML [a] element, whose
    [href] property is a string; [Document] what it reads from the page.
    The [a] elements of inline SVG, whose [href] is an object on which
    [startsWith] throws, are outside the model. *)

Record Meta : Type := mkMeta {
  bytes : option Z;
  mtime : option string
}.

Record Anchor : Type := mkAnchor {
  attrHref : option string;   (* [a.getAttribute('href')], [None] without the attribute *)
  href : string;              (* the [a.href] property, resolved by the browser *)
  textContent : string;       (* [a.textContent] *)
  inPre : bool;               (* the anchor has a [pre] ancestor *)
  inTable : bool;             (* the anchor has a [table] ancestor *)
  rowMeta : Meta              (* what [extractRowMeta] reads around the anchor *)
}.

Record Document : Type := mkDocument {
  title : string;             (* [doc.title] *)
  anchors : list Anchor;      (* the [a] elements, in document order *)
  pres : list string;         (* [textContent] of the [pre] elements, in order *)
  hasTableElement : bool;     (* is there a [table] element *)
  headingCells : list string  (* [textContent] of the [th, td:first-child] elements *)
}.

Definition hasHrefAttr (a : Anchor) : bool :=
  match attrHref a with Some _ => true | None => false end.

(** [isFunctionalLink = (a) => a && a.href && !a.href.startsWith('mailto:')
    && !a.href.startsWith('javascript:')] *)
Definition isFunctionalLink (a : Anchor) : bool :=
  negb (Str.isEmpty (href a))
  && negb (Str.startsWith (href a) "mailto:")
  && negb (Str.startsWith (href a) "javascript:").

(** ** Autoindex detector *)

Definition dateSizeName (date : Re.regex) : Re.regex :=
  Re.seq [ date; Re.plus Re.space;
           Re.rep 2 Re.digit; Re.chr ":"; Re.rep 2 Re.digit; Re.plus Re.space;
           Re.plus Re.digit;
           Re.opt (Re.Cat (Re.chr ".") (Re.plus Re.digit));
           Re.opt (Re.alts [Re.chrI "K"; Re.chrI "M"; Re.chrI "G"]);
           Re.plus Re.space; Re.plus Re.nonspace ].

(** [/\d{4}-\d{2}-\d{2}\s+\d{2}:\d{2}\s+\d+(\.\d+)?[KMG]?\s+\S+/i] *)
Definition apacheIsoLine : Re.regex :=
  dateSizeName (Re.seq [ Re.rep 4 Re.digit; Re.chr "-"; Re.rep 2 Re.digit;
                         Re.chr "-"; Re.rep 2 Re.digit ]).

(** [/\d{2}-[A-Za-z]{3}-\d{4}\s+\d{2}:\d{2}\s+\d+(\.\d+)?[KMG]?\s+\S+/i] *)
Definition apacheMonLine : Re.regex :=
  dateSizeName (Re.seq [ Re.rep 2 Re.digit; Re.chr "-"; Re.rep 3 Re.alpha;
                         Re.chr "-"; Re.rep 4 Re.digit ]).

(** [/name|last modified|size|description/i] *)
Definition headingTerms : Re.regex :=
  Re.wordsI ["name"; "last modified"; "size"; "description"].

Definition hasIndexTitle (doc : Document) : bool :=
  let t := Str.toLowerCase (title doc) in
  Str.startsWith t "index of " || Str.includes t "autoindex"
  || Re.test (Re.litI "directory") t.

Definition hasParentLink (doc : Document) : bool :=
  existsb (fun a => Re.test (Re.litI "parent directory") (textContent a))
          (anchors doc).

Definition hasPre (doc : Document) : bool :=
  match pres doc with [] => false | _ :: _ => true end.

Definition hasTable (doc : Document) : bool := hasTableElement doc.

(** [$$('a[href]', doc).filter(isFunctionalLink)] *)
Definition fileish (doc : Document) : list Anchor :=
  List.filter isFunctionalLink (List.filter hasHrefAttr (anchors doc)).

Definition preListingTest (preText : string) : bool :=
  Re.test apacheIsoLine preText || Re.test apacheMonLine preText.

Definition headingsTest (doc : Document) : bool :=
  existsb (Re.test headingTerms)
          (map (fun t => Str.toLowerCase (Str.trim t)) (headingCells doc)).

(** [looksLikeAutoIndex] of [NiceThumbsBuddy.user.js]. The variable
    [hasDirectoryPattern] is assigned twice, as in the source: the table
    check overwrites the result of the [pre] check. *)
Definition looksLikeAutoIndex (doc : Document) : bool :=
  let many := (3 <=? length (fileish doc))%nat in
  let hasDirectoryPattern := false in
  let hasDirectoryPattern :=
    if hasPre doc
    then match pres doc with
         | preText :: _ => preListingTest preText
         | [] => false
         end
    else hasDirectoryPattern in
  let hasDirectoryPattern :=
    if hasTable doc then headingsTest doc else hasDirectoryPattern in
  (hasIndexTitle doc || hasParentLink doc || hasDirectoryPattern
   || (hasPre doc && hasTable doc)) && many.

(** The other two versions of the detector kept in the repository. *)
Module Variants.

(** [src/dom.js]: no content-pattern check. *)
Definition looksLikeAutoIndex_dom (doc : Document) : bool :=
  let many := (3 <=? length (fileish doc))%nat in
  (hasIndexTitle doc || hasParentLink doc || (hasPre doc && hasTable doc)) && many.

(** [soulful-thumbs-2.1.1.user.js]: a [pre] or a [table] alone is a cue. *)
Definition looksLikeAutoIndex_soulful (doc : Document) : bool :=
  (hasIndexTitle doc || hasParentLink doc || hasPre doc || hasTable doc)
  && (3 <=? length (fileish doc))%nat.

End Variants.

(** The cues as the specification names them. *)
Definition prePattern (doc : Document) : bool :=
  match pres doc with
  | preText :: _ => preListingTest preText
  | [] => false
  end.

Definition tablePattern (doc : Document) : bool :=
  hasTable doc && headingsTest doc.

Definition directoryPattern (doc : Document) : bool :=
  prePattern doc || tablePattern doc.

(** ** Listing parser *)

Inductive Kind : Type := KDir | KImg | KFile.

Definition Kind_eqb (a b : Kind) : bool :=
  match a, b with
  | KDir, KDir | KImg, KImg | KFile, KFile => true
  | _, _ => false
  end.

(** A listing entry. Directories carry [type], images and files carry [ext]
    and the spread of the row metadata. *)
Record Entry : Type := mkEntry {
  kind : Kind;
  url : string;
  name : string;
  type : option FolderType;
  ext : option string;
  meta : Meta
}.

Record Buckets : Type := mkBuckets {
  dirs : list Entry;
  images : list Entry;
  files : list Entry
}.

Definition noMeta : Meta := mkMeta None None.

(** [dirs.length + images.length + files.length] *)
Definition total (b : Buckets) : Z :=
  Z.of_nat (length (dirs b) + length (images b) + length (files b)).

Inductive Selector : Type := PreAnchors | TableAnchors | AllAnchors.

(** [SELECTORS = ['pre a[href]', 'table a[href]', 'a[href]']] *)
Definition SELECTORS : list Selector := [PreAnchors; TableAnchors; AllAnchors].

(** [$$(sel, doc)] for the three selectors. *)
Definition select (sel : Selector) (doc : Document) : list Anchor :=
  match sel with
  | PreAnchors => List.filter (fun a => inPre a && hasHrefAttr a) (anchors doc)
  | TableAnchors => List.filter (fun a => inTable a && hasHrefAttr a) (anchors doc)
  | AllAnchors => List.filter hasHrefAttr (anchors doc)
  end.

(** [for (const sel of SELECTORS) { anchors = $$(sel, doc); if (anchors.length) break; }] *)
Fixpoint pickAnchors (sels : list Selector) (doc : Document)
    (anchors : list Anchor) : list Anchor :=
  match sels with
  | [] => anchors
  | sel :: sels' =>
      let anchors := select sel doc in
      match anchors with
      | _ :: _ => anchors
      | [] => pickAnchors sels' doc anchors
      end
  end.

(** [uniq]: keep an element when its [url] has not been seen yet. *)
Fixpoint uniqFrom (seen : gset string) (arr : list Entry) : list Entry :=
  match arr with
  | [] => []
  | x :: arr' =>
      if decide (url x ∈ seen) then uniqFrom seen arr'
      else x :: uniqFrom ({[url x]} ∪ seen) arr'
  end.

Definition uniq (arr : list Entry) : list Entry := uniqFrom ∅ arr.

(** The entries of one kind, in order. *)
Definition ofKind (k : Kind) (es : list Entry) : list Entry :=
  List.filter (fun e => Kind_eqb (kind e) k) es.

Section Parser.

(** [new URL(href, base).href]; [None] when the constructor throws. *)
Variable resolveURL : string -> string -> option string.
(** [decodeURIComponent]; [None] when it throws [URIError]. *)
Variable decodeURIComponent : string -> option string.
(** The comparator [nat], an [Intl.Collator] compare function (or the
    [localeCompare] fallback): negative, zero or positive. *)
Variable nat : string -> string -> Z.
(** The per-page guard, [12000] in [src/config.js]. *)
Variable MAX_ITEMS_PAGE : Z.

(** [abs]: [try { return new URL(href, base).href } catch (e) { return href }] *)
Definition abs (href base : string) : string :=
  match resolveURL href base with
  | Some u => u
  | None => href
  end.

(** [a.getAttribute('href') || ''] *)
Definition hrefOf (a : Anchor) : string :=
  match attrHref a with Some h => h | None => "" end.

(** [!href || href === '../' || href === './' || href === '/'] *)
Definition isSelfOrParent (href : string) : bool :=
  Str.isEmpty href || String.eqb href "../" || String.eqb href "./"
  || String.eqb href "/".

(** [a.textContent || decodeURIComponent(url.split('/').pop() || '')] *)
Definition rawName (a : Anchor) (url : string) : option string :=
  if Str.isEmpty (textContent a)
  then decodeURIComponent (Str.afterLast "/" url)
  else Some (textContent a).

(** [trim], then [if (name.endsWith('/')) name = name.slice(0, -1)] *)
Definition cleanName (s : string) : string :=
  let name := Str.trim s in
  if Str.endsWithChar "/" name then Str.dropLast name else name.

Definition pushDir (b : Buckets) (e : Entry) : Buckets :=
  mkBuckets (dirs b ++ [e]) (images b) (files b).
Definition pushImage (b : Buckets) (e : Entry) : Buckets :=
  mkBuckets (dirs b) (images b ++ [e]) (files b).
Definition pushFile (b : Buckets) (e : Entry) : Buckets :=
  mkBuckets (dirs b) (images b) (files b ++ [e]).

(** The [for (const a of anchors)] loop of [parseIndex]; [None] when
    [decodeURIComponent] throws. A recursive call on [rest] with the
    buckets unchanged is a [continue]; returning the buckets is the
    [break]. *)
Fixpoint parseLoop (baseUrl : string) (anchors : list Anchor) (b : Buckets)
    : option Buckets :=
  match anchors with
  | [] => Some b
  | a :: rest =>
      let href := hrefOf a in
      if isSelfOrParent href then parseLoop baseUrl rest b else
      let url := abs href baseUrl in
      if negb (isFunctionalLink a) then parseLoop baseUrl rest b else
      match rawName a url with
      | None => None
      | Some s =>
          let name := cleanName s in
          if Str.isEmpty name then parseLoop baseUrl rest b else
          let meta := rowMeta a in
          let b :=
            if isDirHref href then
              pushDir b (mkEntry KDir url name (Some (getFolderType name)) None noMeta)
            else if isImgHref href then
              pushImage b (mkEntry KImg url name None (Some (getExt url)) meta)
            else if isFileHref href then
              pushFile b (mkEntry KFile url name None (Some (getExt url)) meta)
            else b in
          if (MAX_ITEMS_PAGE <=? total b)%Z then Some b
          else parseLoop baseUrl rest b
      end
  end.

(** [byName = (a, b) => nat(a.name, b.name)] *)
Definition byName (a b : Entry) : Z := nat (name a) (name b).


(** [arr.sort(byName)]. ECMAScript fixes the result for a consistent
    comparator: the stable rearrangement of the array in comparator order.
    It is modelled by a stable insertion sort. *)
Fixpoint insertByName (x : Entry) (arr : list Entry) : list Entry :=
  match arr with
  | [] => [x]
  | y :: arr' =>
      if (byName x y <=? 0)%Z then x :: arr else y :: insertByName x arr'
  end.

Fixpoint sortByName (arr : list Entry) : list Entry :=
  match arr with
  | [] => []
  | x :: arr' => insertByName x (sortByName arr')
  end.

(** [parseIndex(doc, baseUrl)] *)
Definition parseIndex (doc : Document) (baseUrl : string) : option Buckets :=
  let anchors := pickAnchors SELECTORS doc [] in
  match parseLoop baseUrl anchors (mkBuckets [] [] []) with
  | None => None
  | Some b =>
      Some (mkBuckets (sortByName (uniq (dirs b)))
                      (sortByName (uniq (images b)))
                      (sortByName (uniq (files b))))
  end.

(** The entry the loop body builds from one anchor, when it builds one. *)
Definition produced (baseUrl : string) (a : Anchor) : option Entry :=
  let href := hrefOf a in
  if isSelfOrParent href then None else
  let url := abs href baseUrl in
  if negb (isFunctionalLink a) then None else
  match rawName a url with
  | None => None
  | Some s =>
      let name := cleanName s in
      if Str.isEmpty name then None
      else if isDirHref href then
        Some (mkEntry KDir url name (Some (getFolderType name)) None noMeta)
      else if isImgHref href then
        Some (mkEntry KImg url name None (Some (getExt url)) (rowMeta a))
      else if isFileHref href then
        Some (mkEntry KFile url name None (Some (getExt url)) (rowMeta a))
      else None
  end.

(** [push] into the bucket of the entry's kind, and the bucket of a kind. *)
Definition push (b : Buckets) (e : Entry) : Buckets :=
  match kind e with
  | KDir => pushDir b e
  | KImg => pushImage b e
  | KFile => pushFile b e
  end.



End Parser.

Definition bucket (k : Kind) (b : Buckets) : list Entry :=
  match k with
  | KDir => dirs b
  | KImg => images b
  | KFile => files b
  end.

(** The value of the constant in [NiceThumbsBuddy.user.js] and
    [src/config.js]. *)
Definition MAX_ITEMS_PAGE_default : Z := 12000.

(** A reference natural-order comparator: digit runs compare as numbers,
    other characters up to ASCII case. It stands for [Intl.Collator] where a
    concrete comparator is needed. *)
Module NatRef.

Definition isDigit (c : ascii) : bool :=
  (48 <=? nat_of_ascii c)%nat && (nat_of_ascii c <=? 57)%nat.

Definition flush (num : option Z) : list (Z * Z) :=
  match num with
  | Some n => [(0%Z, n)]
  | None => []
  end.

Definition runValue (num : option Z) : Z :=
  match num with
  | Some n => n
  | None => 0%Z
  end.

(** A digit run becomes [(0, value)], any other character [(1, code)]. *)
Fixpoint tokens (s : string) (num : option Z) : list (Z * Z) :=
  match s with
  | EmptyString => flush num
  | String c s' =>
      if isDigit c then
        tokens s' (Some (10 * runValue num + (Z.of_nat (nat_of_ascii c) - 48))%Z)
      else
        flush num ++ (1%Z, Z.of_nat (nat_of_ascii (Str.lower_ascii c))) :: tokens s' None
  end.

Definition key (s : string) : list (Z * Z) := tokens s None.

(** Lexicographic order on keys. *)
Definition keyLt : relation (list (Z * Z)) :=
  @lexico (list (Z * Z)) (@list_lexico (Z * Z) (@prod_lexico Z Z_lexico Z Z_lexico)).

Definition compare (a b : string) : Z :=
  match trichotomyT keyLt (key a) (key b) with
  | inleft (left _) => (-1)%Z
  | inleft (right _) => 0%Z
  | inright _ => 1%Z
  end.

End NatRef.

(** ** Lightbox ([soulful-thumbs-2.1.1.user.js], [setupLightbox])

    Numbers are rationals: the model covers the finite values of the
    JavaScript numbers, without rounding, and a division by zero gives
    zero where the code gives an infinity or [NaN]. It serves the
    properties that do not depend on either: the scale after a zoom is a
    clamp of a product, and the other statements are about which handler
    changes which field. [Lightbox64] below models the same code on IEEE
    doubles. *)

Module Lightbox.

Local Open Scope Q_scope.

(** [st = { z, x, y, min, max, w, h }] *)
Record State : Type := mkState {
  z : Q; x : Q; y : Q; min : Q; max : Q; w : Q; h : Q
}.

(** What the handlers read from the [wrap] element when they run:
    [clientWidth], [clientHeight] and [getBoundingClientRect()]. *)
Record Wrap : Type := mkWrap {
  clientWidth : Q; clientHeight : Q;
  left : Q; top : Q; width : Q; height : Q
}.

(** [clamp = (v, min, max) => Math.max(min, Math.min(max, v))] *)
Definition clamp (v lo hi : Q) : Q := Qmax lo (Qmin hi v).

Definition limX (r : Wrap) (st : State) : Q :=
  Qmax 0 ((w st * z st - clientWidth r) / 2).
Definition limY (r : Wrap) (st : State) : Q :=
  Qmax 0 ((h st * z st - clientHeight r) / 2).

(** [clampPan()] *)
Definition clampPan (r : Wrap) (st : State) : State :=
  let vw := clientWidth r in
  let vh := clientHeight r in
  let iw := w st * z st in
  let ih := h st * z st in
  let limX := Qmax 0 ((iw - vw) / 2) in
  let limY := Qmax 0 ((ih - vh) / 2) in
  mkState (z st) (clamp (x st) (- limX) limX) (clamp (y st) (- limY) limY)
          (min st) (max st) (w st) (h st).

(** [zoomTo(z, cx, cy)] *)
Definition zoomTo (r : Wrap) (zr cx cy : Q) (st : State) : State :=
  let px := (cx - left r - x st) / z st in
  let py := (cy - top r - y st) / z st in
  let nz := clamp zr (min st) (max st) in
  clampPan r (mkState nz (cx - left r - px * nz) (cy - top r - py * nz)
                      (min st) (max st) (w st) (h st)).

(** [st.z = 1; st.x = st.y = 0] : the [100], [reset] buttons and key [0]. *)
Definition resetZoom (st : State) : State :=
  mkState 1 0 0 (min st) (max st) (w st) (h st).

(** The closure of one [pointerdown]: [sx], [sy], [ox], [oy]. *)
Record Drag : Type := mkDrag { sx : Q; sy : Q; ox : Q; oy : Q }.

(** The variables of [setupLightbox] that the zoom and pan handlers share,
    and the [pointermove] listeners currently registered. *)
Record Box : Type := mkBox {
  st : State;
  innerCX : Q; innerCY : Q;
  allowPlainWheel : bool;
  drags : list Drag
}.

Inductive Action : Type := Fit | Fill | Hundred | Minus | Plus | Reset.

Inductive Event : Type :=
| Opened (naturalWidth naturalHeight : Q)   (* the timeout of [openAt] *)
| KeyZero                                   (* [keydown] with key [0] *)
| MouseMove (clientX clientY : Q)
| WheelEv (deltaYPositive ctrlKey metaKey : bool) (clientX clientY : Q)
| PointerDown (clientX clientY : Q)
| PointerMove (clientX clientY : Q)
| PointerUp
| Click (act : Action)
| SetWheelMode (b : bool).

(** [n || d] on numbers *)
Definition orElse (n d : Q) : Q := if Qeq_bool n 0 then d else n.

Definition initial : Box :=
  mkBox (mkState 1 0 0 (1 # 2) 6 0 0) 0 0 false [].

Definition withSt (b : Box) (s : State) : Box :=
  mkBox s (innerCX b) (innerCY b) (allowPlainWheel b) (drags b).

(** The body of the [mv] listener of one drag. *)
Definition dragMove (r : Wrap) (cx cy : Q) (s : State) (d : Drag) : State :=
  clampPan r (mkState (z s) (ox d + (cx - sx d)) (oy d + (cy - sy d))
                      (min s) (max s) (w s) (h s)).

(** One event handler run; [r] is what [wrap] measures at that time. *)
Definition step (r : Wrap) (ev : Event) (b : Box) : Box :=
  match ev with
  | Opened nw nh =>
      withSt b (mkState 1 0 0 (1 # 2) 6 (orElse nw 800) (orElse nh 600))
  | KeyZero => withSt b (resetZoom (st b))
  | MouseMove cx cy => mkBox (st b) cx cy (allowPlainWheel b) (drags b)
  | WheelEv down ctrl meta cx cy =>
      let want := allowPlainWheel b || ctrl || meta in
      if negb want then b
      else withSt b (zoomTo r (z (st b) * (if down then 9 # 10 else 11 # 10)) cx cy (st b))
  | PointerDown cx cy =>
      mkBox (st b) (innerCX b) (innerCY b) (allowPlainWheel b)
            (drags b ++ [mkDrag cx cy (x (st b)) (y (st b))])
  | PointerMove cx cy => withSt b (fold_left (dragMove r cx cy) (drags b) (st b))
  | PointerUp => mkBox (st b) (innerCX b) (innerCY b) (allowPlainWheel b) []
  | Click Fit =>
      let s := st b in
      withSt b (mkState (Qmin (width r / w s) (height r / h s)) 0 0
                        (min s) (max s) (w s) (h s))
  | Click Fill =>
      let s := st b in
      withSt b (mkState (Qmax (width r / w s) (height r / h s)) 0 0
                        (min s) (max s) (w s) (h s))
  | Click Hundred => withSt b (resetZoom (st b))
  | Click Plus =>
      withSt b (zoomTo r (z (st b) * (11 # 10)) (innerCX b) (innerCY b) (st b))
  | Click Minus =>
      withSt b (zoomTo r (z (st b) / (11 # 10)) (innerCX b) (innerCY b) (st b))
  | Click Reset => withSt b (resetZoom (st b))
  | SetWheelMode v => mkBox (st b) (innerCX b) (innerCY b) v (drags b)
  end.

(** A run of handlers, each with the measures of [wrap] at its time. *)
Definition run (evs : list (Wrap * Event)) (b : Box) : Box :=
  fold_left (fun b re => step (fst re) (snd re) b) evs b.


(** Every state the code builds has [min = .5] and [max = 6]. *)
Definition bounds_ok (s : State) : Prop := min s = 1 # 2 /\ max s = 6.


(** The state holds the size of an image: [w] and [h] are not zero. *)
Definition opened (s : State) : Prop := ~ w s == 0 /\ ~ h s == 0.

(** Events that register no [pointermove] listener. *)
Definition noPointerDown (ev : Event) : Prop :=
  match ev with PointerDown _ _ => False | _ => True end.

End Lightbox.

(** ** The lightbox on IEEE 754 doubles

    [Lightbox] computes with rationals: that is exact for the scale (a
    clamp of a product) and for the structure of the handlers, but a
    rational model has no [Infinity] and no [NaN], and does not round.
    [Lightbox64] is the same code on binary64 numbers, with the arithmetic
    of the standard library's [SpecFloat]: division by zero gives an
    infinity or [NaN], and every operation rounds to nearest, ties to
    even. *)

Module Lightbox64.

Abbreviation num := SpecFloat.spec_float.

Definition prec : Z := 53.
Definition emax : Z := 1024.

(** The JavaScript operators [+], [-], [*], [/] and unary [-] on numbers. *)
Definition add : num -> num -> num := SpecFloat.SFadd prec emax.
Definition sub : num -> num -> num := SpecFloat.SFsub prec emax.
Definition mul : num -> num -> num := SpecFloat.SFmul prec emax.
Definition div : num -> num -> num := SpecFloat.SFdiv prec emax.
Definition neg : num -> num := SpecFloat.SFopp.

(** An integer literal, and a decimal literal [a/b]: the double nearest to
    the quotient. *)
Definition ofZ (n : Z) : num := SpecFloat.binary_normalize prec emax n 0 false.
Definition lit (a b : Z) : num := div (ofZ a) (ofZ b).

Definition zero : num := SpecFloat.S754_zero false.

Definition isNaN (v : num) : bool :=
  match v with SpecFloat.S754_nan => true | _ => false end.

Definition isPosZero (v : num) : bool :=
  match v with SpecFloat.S754_zero false => true | _ => false end.
Definition isNegZero (v : num) : bool :=
  match v with SpecFloat.S754_zero true => true | _ => false end.

Definition abs (v : num) : num := SpecFloat.SFabs v.

(** [Math.max(a, b)]: [NaN] when an argument is [NaN]; [+0] is larger than
    [-0]. *)
Definition jsMax (a b : num) : num :=
  if isNaN a || isNaN b then SpecFloat.S754_nan
  else if SpecFloat.SFltb a b || (isPosZero b && isNegZero a) then b else a.

(** [Math.min(a, b)] *)
Definition jsMin (a b : num) : num :=
  if isNaN a || isNaN b then SpecFloat.S754_nan
  else if SpecFloat.SFltb b a || (isNegZero b && isPosZero a) then b else a.

(** [clamp = (v, min, max) => Math.max(min, Math.min(max, v))] *)
Definition clamp (v lo hi : num) : num := jsMax lo (jsMin hi v).

(** [n || d] on numbers: [0], [-0] and [NaN] are falsy. *)
Definition orElse (n d : num) : num :=
  match n with
  | SpecFloat.S754_zero _ | SpecFloat.S754_nan => d
  | _ => n
  end.

(** [st = { z, x, y, min, max, w, h }] *)
Record State : Type := mkState {
  z : num; x : num; y : num; min : num; max : num; w : num; h : num
}.

(** [clientWidth], [clientHeight] and [getBoundingClientRect()] of [wrap]. *)
Record Wrap : Type := mkWrap {
  clientWidth : num; clientHeight : num;
  left : num; top : num; width : num; height : num
}.

(** The limits [clampPan] computes:
    [Math.max(0, (st.w * st.z - vw) / 2)] and the same for the height. *)
Definition limX (r : Wrap) (st : State) : num :=
  jsMax zero (div (sub (mul (w st) (z st)) (clientWidth r)) (ofZ 2)).
Definition limY (r : Wrap) (st : State) : num :=
  jsMax zero (div (sub (mul (h st) (z st)) (clientHeight r)) (ofZ 2)).

(** [clampPan()] *)
Definition clampPan (r : Wrap) (st : State) : State :=
  let vw := clientWidth r in
  let vh := clientHeight r in
  let iw := mul (w st) (z st) in
  let ih := mul (h st) (z st) in
  let limX := jsMax zero (div (sub iw vw) (ofZ 2)) in
  let limY := jsMax zero (div (sub ih vh) (ofZ 2)) in
  mkState (z st) (clamp (x st) (neg limX) limX) (clamp (y st) (neg limY) limY)
          (min st) (max st) (w st) (h st).

(** [zoomTo(z, cx, cy)] *)
Definition zoomTo (r : Wrap) (zr cx cy : num) (st : State) : State :=
  let px := div (sub (sub cx (left r)) (x st)) (z st) in
  let py := div (sub (sub cy (top r)) (y st)) (z st) in
  let nz := clamp zr (min st) (max st) in
  clampPan r (mkState nz (sub (sub cx (left r)) (mul px nz))
                      (sub (sub cy (top r)) (mul py nz))
                      (min st) (max st) (w st) (h st)).

(** [st.z = 1; st.x = st.y = 0] *)
Definition resetZoom (st : State) : State :=
  mkState (ofZ 1) zero zero (min st) (max st) (w st) (h st).

(** The closure of one [pointerdown]: [sx], [sy], [ox], [oy]. *)
Record Drag : Type := mkDrag { sx : num; sy : num; ox : num; oy : num }.

Record Box : Type := mkBox {
  st : State;
  innerCX : num; innerCY : num;
  allowPlainWheel : bool;
  drags : list Drag
}.

Inductive Event : Type :=
| Opened (naturalWidth naturalHeight : num)
| KeyZero
| MouseMove (clientX clientY : num)
| WheelEv (deltaYPositive ctrlKey metaKey : bool) (clientX clientY : num)
| PointerDown (clientX clientY : num)
| PointerMove (clientX clientY : num)
| PointerUp
| Click (act : Lightbox.Action)
| SetWheelMode (b : bool).

(** [let st = { z:1, x:0, y:0, min:.5, max:6, w:0, h:0 }] *)
Definition initial : Box :=
  mkBox (mkState (ofZ 1) zero zero (lit 1 2) (ofZ 6) zero zero) zero zero false [].

Definition withSt (b : Box) (s : State) : Box :=
  mkBox s (innerCX b) (innerCY b) (allowPlainWheel b) (drags b).

(** The body of the [mv] listener of one drag. *)
Definition dragMove (r : Wrap) (cx cy : num) (s : State) (d : Drag) : State :=
  clampPan r (mkState (z s) (add (ox d) (sub cx (sx d))) (add (oy d) (sub cy (sy d)))
                      (min s) (max s) (w s) (h s)).

(** One event handler run; [r] is what [wrap] measures at that time. *)
Definition step (r : Wrap) (ev : Event) (b : Box) : Box :=
  match ev with
  | Opened nw nh =>
      withSt b (mkState (ofZ 1) zero zero (lit 1 2) (ofZ 6)
                        (orElse nw (ofZ 800)) (orElse nh (ofZ 600)))
  | KeyZero => withSt b (resetZoom (st b))
  | MouseMove cx cy => mkBox (st b) cx cy (allowPlainWheel b) (drags b)
  | WheelEv down ctrl meta cx cy =>
      let want := allowPlainWheel b || ctrl || meta in
      if negb want then b
      else withSt b (zoomTo r (mul (z (st b)) (if down then lit 9 10 else lit 11 10))
                            cx cy (st b))
  | PointerDown cx cy =>
      mkBox (st b) (innerCX b) (innerCY b) (allowPlainWheel b)
            (drags b ++ [mkDrag cx cy (x (st b)) (y (st b))])
  | PointerMove cx cy => withSt b (fold_left (dragMove r cx cy) (drags b) (st b))
  | PointerUp => mkBox (st b) (innerCX b) (innerCY b) (allowPlainWheel b) []
  | Click Lightbox.Fit =>
      let s := st b in
      withSt b (mkState (jsMin (div (width r) (w s)) (div (height r) (h s))) zero zero
                        (min s) (max s) (w s) (h s))
  | Click Lightbox.Fill =>
      let s := st b in
      withSt b (mkState (jsMax (div (width r) (w s)) (div (height r) (h s))) zero zero
                        (min s) (max s) (w s) (h s))
  | Click Lightbox.Hundred => withSt b (resetZoom (st b))
  | Click Lightbox.Plus =>
      withSt b (zoomTo r (mul (z (st b)) (lit 11 10)) (innerCX b) (innerCY b) (st b))
  | Click Lightbox.Minus =>
      withSt b (zoomTo r (div (z (st b)) (lit 11 10)) (innerCX b) (innerCY b) (st b))
  | Click Lightbox.Reset => withSt b (resetZoom (st b))
  | SetWheelMode v => mkBox (st b) (innerCX b) (innerCY b) v (drags b)
  end.

(** A run of handlers, each with the measures of [wrap] at its time. *)
Definition run (evs : list (Wrap * Event)) (b : Box) : Box :=
  fold_left (fun b re => step (fst re) (snd re) b) evs b.



End Lightbox64.

(** ** Metadata cache ([NiceThumbsBuddy.user.js], [createMetadataManager]) *)

Module MetadataCache.

Record MetadataRecord : Type := mkRecord {
  bytes : option Z;
  mtime : option string;
  contentType : option string;
  fetchedAt : option Z;
  width : option Z;
  height : option Z
}.

Definition emptyRecord : MetadataRecord := mkRecord None None None None None None.

(** A JavaScript [Map] from URL to record: the entries in insertion order. *)
Definition JsMap : Type := list (string * MetadataRecord).

Definition keys (m : JsMap) : list string := map fst m.

(** [Map.prototype.get] *)
Fixpoint mapGet (k : string) (m : JsMap) : option MetadataRecord :=
  match m with
  | [] => None
  | (k', v) :: m' => if String.eqb k' k then Some v else mapGet k m'
  end.

(** [Map.prototype.set]: a present key keeps its place, a new key goes last. *)
Fixpoint mapSet (k : string) (v : MetadataRecord) (m : JsMap) : JsMap :=
  match m with
  | [] => [(k, v)]
  | (k', v') :: m' =>
      if String.eqb k' k then (k, v) :: m' else (k', v') :: mapSet k v m'
  end.

(** [cache.size] *)
Definition size (m : JsMap) : Z := Z.of_nat (length m).

Definition CACHE_MAX_SIZE : Z := 10000.

(** [entries.slice(-n)] for [n >= 0] *)
Definition sliceLast (n : Z) (entries : JsMap) : JsMap :=
  if (n =? 0)%Z then entries
  else skipn (length entries - Z.to_nat n) entries.

(** [Math.floor(CACHE_MAX_SIZE * 0.8)] *)
Definition keepCount : Z := Qfloor (inject_Z CACHE_MAX_SIZE * (8 # 10)).

(** The pruning block of the save:
    [if (cache.size > CACHE_MAX_SIZE) { ... cache.clear(); toKeep.forEach(set) }] *)
Definition prune (cache : JsMap) : JsMap :=
  if (CACHE_MAX_SIZE <? size cache)%Z then
    let entries := cache in
    let toKeep := sliceLast keepCount entries in
    fold_left (fun c kv => mapSet (fst kv) (snd kv) c) toKeep []
  else cache.

(** What the two [sessionStorage.setItem] calls of a save do. Session
    storage itself is not part of the state. *)
Inductive Outcome : Type := Stored | QuotaExceededError | OtherError.

(** The function given to [throttle]: prune, write, and on a quota error
    clear the cache. *)
Definition save (out : Outcome) (cache : JsMap) : JsMap :=
  let cache := prune cache in
  match out with
  | Stored => cache
  | QuotaExceededError => []
  | OtherError => cache
  end.

(** The manager: the [cache] map and the [lastCall] of the throttle. *)
Record Manager : Type := mkManager {
  cache : JsMap;
  lastCall : Z
}.

Definition create : Manager := mkManager [] 0.

(** [saveThrottled = throttle(save, 1000)]: a call less than a second after
    the last one that ran is dropped. *)
Definition saveThrottled (now : Z) (out : Outcome) (m : Manager) : Manager :=
  if (now - lastCall m <? 1000)%Z then m
  else mkManager (save out (cache m)) now.

(** [cache.set(url, rec); saveThrottled();], the common end of the two
    functions that add records. *)
Definition setAndSave (url : string) (rec : MetadataRecord)
    (now : Z) (out : Outcome) (m : Manager) : Manager :=
  saveThrottled now out (mkManager (mapSet url rec (cache m)) (lastCall m)).

(** The [then] branch of a probe:
    [cache.set(url, { ...metadata, fetchedAt: Date.now() }); saveThrottled()] *)
Definition onMetadata (url : string) (metadata : MetadataRecord)
    (now : Z) (out : Outcome) (m : Manager) : Manager :=
  let rec := mkRecord (bytes metadata) (mtime metadata) (contentType metadata)
                      (Some now) (width metadata) (height metadata) in
  setAndSave url rec now out m.

Definition falsy (n : option Z) : bool :=
  match n with
  | None => true
  | Some v => (v =? 0)%Z
  end.

(** [noteImageSize(url, width, height)] *)
Definition noteImageSize (url : string) (wd ht : Z)
    (now : Z) (out : Outcome) (m : Manager) : Manager :=
  if Str.isEmpty url then m else
  let existing :=
    match mapGet url (cache m) with Some r => r | None => emptyRecord end in
  if falsy (width existing) || falsy (height existing) then
    let rec := mkRecord (bytes existing) (mtime existing) (contentType existing)
                        (fetchedAt existing) (Some wd) (Some ht) in
    setAndSave url rec now out m
  else m.

(** [get(url)]: [cache.get(url) || {}] *)
Definition get (url : string) (m : Manager) : MetadataRecord :=
  match mapGet url (cache m) with Some r => r | None => emptyRecord end.

(** [getCacheSize()] *)
Definition getCacheSize (m : Manager) : Z := size (cache m).

(** Decimal text of a number, for building distinct URLs. *)
Definition urlOf (n : Z) : string :=
  String "/" (NilZero.string_of_uint (N.to_uint (Z.to_N n))).

(** [noteImageSize] for the images numbered [n-1, ..., 0], in that order,
    all at time [now] and with successful writes. *)
Fixpoint burst (n : Datatypes.nat) (now : Z) (m : Manager) : Manager :=
  match n with
  | O => m
  | S n' => burst n' now (noteImageSize (urlOf (Z.of_nat n')) 640 480 now Stored m)
  end.

End MetadataCache.

(** ** Preference helpers ([NiceThumbs,Buddy.user.js]) *)

Module Prefs.

(** The values that reach the helpers. *)
Inductive JsVal : Type :=
| Undefined
| Null
| JStr (s : string)
| JNum (n : Z).

(** [String(v)] *)
Definition toString (v : JsVal) : string :=
  match v with
  | Undefined => "undefined"
  | Null => "null"
  | JStr s => s
  | JNum n => NilZero.string_of_int (Z.to_int n)
  end.

(** The [storage] object: a [get] and a [set]. *)
Class Storage (S : Type) : Type := {
  storageGet : S -> string -> JsVal;
  storageSet : S -> string -> JsVal -> S
}.

(** [{ get: GM_getValue, set: GM_setValue }]: the host keeps the value;
    [GM_getValue(k)] without a default is [undefined] for an absent key. *)
Abbreviation GMStore := (gmap string JsVal).

#[global] Instance GM_storage : Storage GMStore := {
  storageGet st k := match st !! k with Some v => v | None => Undefined end;
  storageSet st k v := <[k := v]> st
}.

(** [localStorage]: [setItem] stores the string of the value; [getItem] is
    [null] for an absent key. *)
Abbreviation LocalStorage := (gmap string string).

#[global] Instance local_storage : Storage LocalStorage := {
  storageGet st k := match st !! k with Some s => JStr s | None => Null end;
  storageSet st k v := <[k := toString v]> st
}.

(** [getPref = (key, def) => { const v = storage.get(key);
     return v !== undefined && v !== null ? v : def; }] *)
Definition getPref {S : Type} `{Storage S} (st : S) (key : string) (def : JsVal) : JsVal :=
  let v := storageGet st key in
  match v with
  | Undefined | Null => def
  | _ => v
  end.

(** [setPref = (key, val) => storage.set(key, val)] *)
Definition setPref {S : Type} `{Storage S} (st : S) (key : string) (val : JsVal) : S :=
  storageSet st key val.

End Prefs.

(** ** Build script *)

Module Build.

(** The file system: path to text. *)
Abbreviation FS := (gmap string string).

Definition files : list string :=
  [ "src/header.js"; "src/config.js"; "src/utils.js"; "src/dom.js";
    "src/ui.js"; "src/main.js"; "src/footer.js" ].

Definition artifact : string := "NiceThumbsBuddy.user.js".

(** [fs.readFileSync(f, 'utf8')]; [None] when it throws. *)
Definition readFileSync (fs : FS) (f : string) : option string := fs !! f.

(** [Array.prototype.join] *)
Fixpoint join (sep : string) (parts : list string) : string :=
  match parts with
  | [] => ""
  | [p] => p
  | p :: rest => p ++ sep ++ join sep rest
  end.

Definition newline : string := String (ascii_of_nat 10) EmptyString.

(** [fl.map(f => fs.readFileSync(f, 'utf8'))]: the texts in order, or
    [None] at the first file that cannot be read. *)
Fixpoint readAll (fs : FS) (fl : list string) : option (list string) :=
  match fl with
  | [] => Some []
  | f :: fl' =>
      match readFileSync fs f with
      | None => None
      | Some text =>
          match readAll fs fl' with
          | None => None
          | Some texts => Some (text :: texts)
          end
      end
  end.

(** [files.map(f => fs.readFileSync(f, 'utf8')).join('\n')] *)
Definition output (fs : FS) : option string :=
  match readAll fs files with
  | Some parts => Some (join newline parts)
  | None => None
  end.

(** What [fs.writeFileSync] does when it is called: it writes the text, or
    it throws ([EACCES], [EISDIR], [ENOSPC], ...). After a throw the file
    is as the operating system left it: untouched ([None]) or holding some
    text, such as a truncated one. *)
Inductive WriteOutcome : Type :=
| Written
| WriteThrows (left : option string).

(** [fs.writeFileSync(path, text)]: the file system afterwards, and whether
    the call returned. *)
Definition writeFileSync (w : WriteOutcome) (fs : FS) (path text : string)
    : FS * bool :=
  match w with
  | Written => (<[path := text]> fs, true)
  | WriteThrows None => (fs, false)
  | WriteThrows (Some t) => (<[path := t]> fs, false)
  end.

(** How the script ends: with its [console.log] line, or with an uncaught
    exception (the script has no [try]). *)
Inductive Exit : Type :=
| Logged (line : string)
| Uncaught.

(** The whole script: the seven reads, then the write, then the log line.
    An exception of a read or of the write ends it. *)
Definition build (w : WriteOutcome) (fs : FS) : FS * Exit :=
  match output fs with
  | None => (fs, Uncaught)
  | Some text =>
      let (fs', returned) := writeFileSync w fs artifact text in
      if returned then (fs', Logged "Built NiceThumbsBuddy.user.js")
      else (fs', Uncaught)
  end.

End Build.

(** ** Shuffle ([NiceThumbsBuddy.user.js], [src/dom.js]) *)

Module Shuffle.

Section Shuffle.

(** The values held by arrays, with JavaScript's [undefined]. *)
Variable V : Type.
Variable undefined : V.

(** The generator behind [Math.random]: a draw and the next state. *)
Variable RNG : Type.
Variable random : RNG -> Q * RNG.

(** Arrays live in a heap and are passed by reference. *)
#[local] Abbreviation Heap := (gmap positive (list V)).

(** [a[i]] *)
Definition aget (a : list V) (i : Datatypes.nat) : V :=
  match a !! i with
  | Some v => v
  | None => undefined
  end.

(** [a[i] = v]: past the end the array grows, the gap reads [undefined]. *)
Definition aset (a : list V) (i : Datatypes.nat) (v : V) : list V :=
  if (i <? length a)%nat then <[i := v]> a
  else a ++ replicate (i - length a) undefined ++ [v].

(** [Math.floor(r * (i + 1))] *)
Definition pick (r : Q) (i : Datatypes.nat) : Datatypes.nat :=
  Z.to_nat (Qfloor (r * inject_Z (Z.of_nat i + 1))).

(** The [for (let i = a.length - 1; i > 0; i--)] loop, entered with [i]. *)
Fixpoint loop (i : Datatypes.nat) (a : list V) (g : RNG) : list V * RNG :=
  match i with
  | O => (a, g)
  | S i' =>
      let (r, g) := random g in
      let j := pick r i in
      let ai := aget a i in
      let aj := aget a j in
      let a := aset a i aj in
      let a := aset a j ai in
      loop i' a g
  end.

(** [shuffle(array)]: [array.slice()] allocates the copy [a]; the result is
    the reference to [a]. [None] when [array] is not an array of the heap. *)
Definition shuffle (array : positive) (σ : Heap) (g : RNG)
    : option (positive * Heap * RNG) :=
  match σ !! array with
  | None => None
  | Some elems =>
      let a := fresh (dom σ) in
      let (elems', g') := loop (length elems - 1) elems g in
      Some (a, <[a := elems']> σ, g')
  end.

End Shuffle.

(** A linear congruential generator, as an instance of [random]. *)
Definition lcg (g : Z) : Q * Z :=
  (Qmake (g mod 1000) 1000, (g * 1103515245 + 12345) mod 2147483648)%Z.

End Shuffle.

(** ** Formatting helpers ([fmtBytes], [formatDate]) *)

Module Format.

(** The decimal text of an integer, as in a template literal. *)
Definition dec (n : Z) : string := NilZero.string_of_int (Z.to_int n).

Definition emdash : string := "—".





Section FormatDate.

(** [new Date(date).getTime()], [None] for an invalid date. *)
Variable parseDate : string -> option Z.
(** [d.toLocaleDateString()] *)
Variable toLocaleDateString : Z -> string.

(** [formatDate(date)] evaluated at time [now]. *)
Definition formatDate (date : option string) (now : Z) : string :=
  match date with
  | None => emdash
  | Some s =>
      if Str.isEmpty s then emdash else
      match parseDate s with
      | None => emdash
      | Some d =>
          let diffMs := (now - d)%Z in
          let diffDays := (diffMs / (1000 * 60 * 60 * 24))%Z in
          if (diffDays <? 1)%Z then
            let diffHours := (diffMs / (1000 * 60 * 60))%Z in
            if (diffHours <? 1)%Z then
              let diffMinutes := (diffMs / (1000 * 60))%Z in
              if (diffMinutes <? 1)%Z then "Just now"
              else dec diffMinutes +:+ "m ago"
            else dec diffHours +:+ "h ago"
          else if (diffDays <? 7)%Z then dec diffDays +:+ "d ago"
          else toLocaleDateString d
      end
  end.

End FormatDate.

End Format.

(** ** Configurable limits ([NiceThumbs,Buddy.user.js]) *)

Module Limits.

Definition isDigit (c : ascii) : bool :=
  (48 <=? nat_of_ascii c)%nat && (nat_of_ascii c <=? 57)%nat.

(** The longest prefix of decimal digits. *)
Fixpoint takeDigits (s : string) : string :=
  match s with
  | EmptyString => EmptyString
  | String c s' => if isDigit c then String c (takeDigits s') else EmptyString
  end.

Definition digitsValue (ds : string) : option Z :=
  match ds with
  | EmptyString => None
  | _ =>
      match NilEmpty.uint_of_string ds with
      | Some d => Some (Z.of_uint d)
      | None => None
      end
  end.

(** [parseInt(v, 10)]: leading white space, an optional sign, then the
    longest run of digits; [None] is [NaN]. *)
Definition parseInt (v : Prefs.JsVal) : option Z :=
  let s := Str.trimStart (Prefs.toString v) in
  match s with
  | String "-" rest =>
      match digitsValue (takeDigits rest) with
      | Some n => Some (- n)%Z
      | None => None
      end
  | String "+" rest => digitsValue (takeDigits rest)
  | _ => digitsValue (takeDigits s)
  end.

(** [clamp] on a number that may be [NaN]: [Math.min] and [Math.max] return
    [NaN] when an argument is [NaN]. *)
Definition clamp (v : option Z) (lo hi : Z) : option Z :=
  match v with
  | Some n => Some (Z.max lo (Z.min hi n))
  | None => None
  end.

(** [MAX_ITEMS_PAGE = clamp(parseInt(getPref('ntb:maxitems', 12000), 10), 100, 50000)] *)
Definition MAX_ITEMS_PAGE {S : Type} `{Prefs.Storage S} (st : S) : option Z :=
  clamp (parseInt (Prefs.getPref st "ntb:maxitems" (Prefs.JNum 12000))) 100 50000.

(** [SCAN_CONCURRENCY = clamp(parseInt(getPref('ntb:concurrency', 4), 10), 1, 16)] *)
Definition SCAN_CONCURRENCY {S : Type} `{Prefs.Storage S} (st : S) : option Z :=
  clamp (parseInt (Prefs.getPref st "ntb:concurrency" (Prefs.JNum 4))) 1 16.

(** [a || b] on numbers: [NaN] and [0] are falsy. *)
Definition orNum (a b : option Z) : option Z :=
  match a with
  | Some n => if (n =? 0)%Z then b else a
  | None => b
  end.

(** The value the Limits button stores for an answer [input] of the prompt:
    [clamp(parseInt(input, 10) || current, lo, hi)]. *)
Definition limitValue (input : string) (current : option Z) (lo hi : Z) : option Z :=
  clamp (orNum (parseInt (Prefs.JStr input)) current) lo hi.

(** The first prompt of the click handler of the Limits button, for a
    current limit that is a number: [None] as answer is a cancelled prompt,
    which stores nothing. *)
Definition askMaxItems {S : Type} `{Prefs.Storage S}
    (answer : option string) (current : Z) (st : S) : S :=
  match answer with
  | None => st
  | Some input =>
      match limitValue input (Some current) 100 50000 with
      | Some v => Prefs.setPref st "ntb:maxitems" (Prefs.JNum v)
      | None => st
      end
  end.

End Limits.

(** ** Substring search without regular expressions *)

(** [p] is a prefix of [s], up to ASCII case. *)
Fixpoint startsWithI (s p : string) : bool :=
  match p, s with
  | EmptyString, _ => true
  | String _ _, EmptyString => false
  | String a p', String b s' =>
      Ascii.eqb (Str.lower_ascii b) (Str.lower_ascii a) && startsWithI s' p'
  end.

(** [p] occurs in [s], up to ASCII case. *)
Fixpoint includesI (s p : string) : bool :=
  startsWithI s p ||
  match s with
  | EmptyString => false
  | String _ s' => includesI s' p
  end.

(** The terms of the five patterns of [getFolderType], as word lists. *)
Definition folderWords : list (FolderType * list string) :=
  [ (video, ["video"; "movie"; "film"; "tv"; "show"; "series"]);
    (audio, ["audio"; "sound"; "music"; "mp3"; "wav"; "flac"]);
    (photo, ["photo"; "image"; "picture"; "img"; "jpg"; "camera"; "raw"]);
    (archive, ["archive"; "backup"; "old"; "save"]);
    (document, ["document"; "doc"; "pdf"; "txt"; "report"]) ].

(** ** [throttle] ([NiceThumbsBuddy.user.js], Utils) *)

Module Throttle.

(** One call, at time [now], of the function returned by [throttle(fn, ms)]:
    the result of [fn] when it runs, and the new [lastCall]. *)
Definition call {A B : Type} (fn : A -> B) (ms : Z) (now : Z) (arg : A)
    (lastCall : Z) : option B * Z :=
  if (now - lastCall <? ms)%Z then (None, lastCall)
  else (Some (fn arg), now).

(** The times at which [fn] runs for a sequence of calls. *)
Fixpoint ran {A : Type} (ms : Z) (calls : list (Z * A)) (lastCall : Z) : list Z :=
  match calls with
  | [] => []
  | (now, arg) :: calls' =>
      if (now - lastCall <? ms)%Z then ran ms calls' lastCall
      else now :: ran ms calls' now
  end.

(** Each time is at least [ms] after the one before it, the first one after
    [t0]. *)
Fixpoint spaced (ms : Z) (t0 : Z) (ts : list Z) : Prop :=
  match ts with
  | [] => True
  | t :: ts' => (ms <= t - t0)%Z /\ spaced ms t ts'
  end.

End Throttle.

(** ** Metadata probe ([createMetadataManager], [fetchMetadata]) *)

Module Probe.

(** What one [fetch(url, { method: 'HEAD', ... })] does. *)
Inductive Attempt : Type :=
| Aborted                                   (* the 5 s timer aborts it: [AbortError] *)
| Rejected (name message : string)          (* [fetch] rejects with this error *)
| Responded (ok : bool) (status : Z)
            (contentLength lastModified contentType : option string).

Record Error : Type := mkError { errName : string; errMessage : string }.

Inductive Result : Type :=
| Threw (e : Error)
| Returned (metadata : MetadataCache.MetadataRecord).

(** What a call of [fetchMetadata] did: its result, the number of [fetch]
    calls and the number of one-second waits. *)
Record Run : Type := mkRun { result : Result; fetches : Datatypes.nat; waits : Datatypes.nat }.

(** A header is used when [headers.get] gives a non-empty string. *)
Definition truthy (h : option string) : option string :=
  match h with
  | Some s => if Str.isEmpty s then None else Some s
  | None => None
  end.

Section Fetch.

(** [new Date(s).toISOString()]; [None] when it throws [RangeError]. *)
Variable toISOString : string -> option string.
(** The message of that [RangeError]. *)
Variable invalidDateMessage : string.
(** The outcome of the [k]-th call of [fetch]. *)
Variable env : Datatypes.nat -> Attempt.

(** The body of the [try] block: the error thrown or the metadata. For a
    [content-length] that is not a number [bytes] is [NaN], which the
    record holds as no [bytes]. *)
Definition tryBlock (a : Attempt) : Result :=
  match a with
  | Aborted => Threw (mkError "AbortError" "")
  | Rejected name message => Threw (mkError name message)
  | Responded ok status contentLength lastModified contentType =>
      if negb ok then Threw (mkError "Error" ("HTTP " +:+ Format.dec status))
      else
        let bytes :=
          match truthy contentLength with
          | Some cl => Limits.parseInt (Prefs.JStr cl)
          | None => None
          end in
        match truthy lastModified with
        | Some lm =>
            match toISOString lm with
            | Some iso =>
                Returned (MetadataCache.mkRecord bytes (Some iso) (truthy contentType)
                                                 None None None)
            | None => Threw (mkError "RangeError" invalidDateMessage)
            end
        | None =>
            Returned (MetadataCache.mkRecord bytes None (truthy contentType)
                                             None None None)
        end
  end.

(** [error.name === 'TypeError' || error.message.includes('network')] *)
Definition isNetworkError (e : Error) : bool :=
  String.eqb (errName e) "TypeError" || Str.includes (errMessage e) "network".

(** [fetchMetadata(url, retries)], the [k]-th [fetch] being the next one. *)
Fixpoint fetchMetadata (retries : Datatypes.nat) (k : Datatypes.nat) : Run :=
  match tryBlock (env k) with
  | Returned metadata => mkRun (Returned metadata) 1 0
  | Threw error =>
      if String.eqb (errName error) "AbortError"
      then mkRun (Threw (mkError "Error" "Request timeout")) 1 0
      else
        match retries with
        | S retries' =>
            if isNetworkError error then
              let r := fetchMetadata retries' (S k) in
              mkRun (result r) (S (fetches r)) (S (waits r))
            else mkRun (Threw error) 1 0
        | O => mkRun (Threw error) 1 0
        end
  end.

End Fetch.

(** The [then] of the observer callback: a returned metadata object is
    stored, a rejection only logged. *)
Definition settle (url : string) (r : Result) (now : Z)
    (out : MetadataCache.Outcome) (m : MetadataCache.Manager) : MetadataCache.Manager :=
  match r with
  | Returned metadata => MetadataCache.onMetadata url metadata now out m
  | Threw _ => m
  end.

End Probe.

(** The operations that change a manager, and a sequence of them. *)
Module CacheOps.

Inductive Op : Type :=
| Settle (url : string) (r : Probe.Result) (now : Z) (out : MetadataCache.Outcome)
| NoteImageSize (url : string) (wd ht : Z) (now : Z) (out : MetadataCache.Outcome)
| Cleanup.

Definition apply (op : Op) (m : MetadataCache.Manager) : MetadataCache.Manager :=
  match op with
  | Settle url r now out => Probe.settle url r now out m
  | NoteImageSize url wd ht now out => MetadataCache.noteImageSize url wd ht now out m
  | Cleanup => MetadataCache.mkManager [] (MetadataCache.lastCall m)
  end.

Definition run (ops : list Op) (m : MetadataCache.Manager) : MetadataCache.Manager :=
  fold_left (fun m op => apply op m) ops m.

End CacheOps.

(** ** Navigation helpers ([soulful-thumbs-2.1.1.user.js]) *)

Module Nav.

(** A parsed URL: [head] is the text of [href] before the path (scheme,
    credentials, host and port). *)
Record URL : Type := mkURL {
  head : string;
  origin : string;
  pathname : string;
  search : string;
  hash : string
}.

(** [url.href] *)
Definition href (u : URL) : string :=
  head u +:+ pathname u +:+ search u +:+ hash u.

Definition isSlash (c : ascii) : bool := Ascii.eqb c "/".

Fixpoint dropNonSlash (l : list ascii) : list ascii :=
  match l with
  | [] => []
  | c :: l' => if isSlash c then l else dropNonSlash l'
  end.

(** [p.replace(/[^\/]+\/$/, '')]: a last segment that is not empty, with the
    slash that ends [p], is removed. *)
Definition dropLastSegment (p : string) : string :=
  match rev (list_ascii_of_string p) with
  | s :: c :: rest =>
      if isSlash s && negb (isSlash c)
      then string_of_list_ascii (rev (dropNonSlash (c :: rest)))
      else p
  | _ => p
  end.

(** The path [parentUrl] computes from [url.pathname]. *)
Definition parentPath (pathname : string) : string :=
  let p := if Str.endsWithChar "/" pathname then pathname else pathname +:+ "/" in
  if String.eqb p "/" then "/" else dropLastSegment p.

Section Parse.

(** [new URL(u)]; [None] when it throws. *)
Variable parseURL : string -> option URL.

(** [isRootUrl(u)] *)
Definition isRootUrl (u : string) : option bool :=
  match parseURL u with
  | Some url => Some (String.eqb (pathname url) "/" || String.eqb (pathname url) "")
  | None => None
  end.

(** [parentUrl(u)]; assigning [url.pathname] is modelled as replacing the
    field. *)
Definition parentUrl (u : string) : option string :=
  match parseURL u with
  | Some url =>
      let url := mkURL (head url) (origin url) (pathname url) "" "" in
      let p := if Str.endsWithChar "/" (pathname url) then pathname url
               else pathname url +:+ "/" in
      if String.eqb p "/" then Some (origin url +:+ "/")
      else
        let parent := dropLastSegment p in
        Some (href (mkURL (head url) (origin url) parent (search url) (hash url)))
  | None => None
  end.

(** [homeUrl(u)] *)
Definition homeUrl (u : string) : option string :=
  match parseURL u with
  | Some url => Some (href (mkURL (head url) (origin url) "/" "" ""))
  | None => None
  end.

End Parse.

(** Each segment followed by a slash. *)
Fixpoint segsText (segs : list string) : string :=
  match segs with
  | [] => ""
  | seg :: segs' => seg +:+ "/" +:+ segsText segs'
  end.

(** The directory path with the given segments: [pathOf ["a"; "b"]] is
    ["/a/b/"]. *)
Definition pathOf (segs : list string) : string := "/" +:+ segsText segs.

End Nav.

(** ** Sample inputs *)

Module Sample.

(** A resolver for hrefs relative to a directory URL. *)
Definition resolve (href base : string) : option string :=
  if Str.startsWith href "./" then Some (base +:+ substring 2 (String.length href) href)
  else Some (base +:+ href).

Definition decode (s : string) : option string := Some s.

Definition base : string := "http://h/photos/".

(** An anchor of a [pre] listing. *)
Definition link (h t : string) : Anchor :=
  mkAnchor (Some h) (base +:+ h) t true false (mkMeta None None).

(** "Index of /photos/", a parent link and five functional anchors; the
    first two anchors after the parent link resolve to the same URL. *)
Definition photos : Document :=
  mkDocument "Index of /photos/"
    [ link "../" "Parent Directory";
      link "img10.jpg" "First"; link "./img10.jpg" "Second";
      link "img2.jpg" "img2.jpg"; link "sub/" "sub/"; link "notes.pdf" "notes.pdf" ]
    [] false [].

(** Three images listed in a [pre] block with Apache-style lines, under a
    title that says nothing; and the same page with free text in the [pre]. *)
Definition apachePre : Document :=
  mkDocument "Files"
    [ link "a.jpg" "a.jpg"; link "b.jpg" "b.jpg"; link "c.jpg" "c.jpg" ]
    ["2024-01-02 10:00  12K a.jpg"] false [].

Definition plainPre : Document :=
  mkDocument "Files"
    [ link "a.jpg" "a.jpg"; link "b.jpg" "b.jpg"; link "c.jpg" "c.jpg" ]
    ["Holiday pictures"] false [].

(** Two functional anchors and no cue. *)
Definition sparse : Document :=
  mkDocument "Welcome"
    [ link "a.jpg" "a.jpg"; link "b.jpg" "b.jpg" ]
    [] false [].

Definition parse (maxItems : Z) (doc : Document) : option Buckets :=
  parseIndex resolve decode NatRef.compare maxItems doc base.

Definition noBuckets : Buckets := mkBuckets [] [] [].

Definition parsed (maxItems : Z) (doc : Document) : Buckets :=
  match parse maxItems doc with
  | Some r => r
  | None => noBuckets
  end.

(** A manager holding one record, saved at time 1700000000000. *)
Definition manager : MetadataCache.Manager :=
  MetadataCache.onMetadata "http://h/photos/a.jpg" MetadataCache.emptyRecord
    1700000000000 MetadataCache.Stored MetadataCache.create.

(** A source tree with the seven fragments. *)
Definition tree : Build.FS :=
  list_to_map
    [ ("src/header.js", "// ==UserScript=="); ("src/config.js", "const A = 1;");
      ("src/utils.js", "const u = 2;"); ("src/dom.js", "function d() {}");
      ("src/ui.js", "function r() {}"); ("src/main.js", "d(); r();");
      ("src/footer.js", "})();"); ("README.md", "docs") ].

(** A heap with one array of numbers. *)
Definition heap : gmap positive (list Z) := {[ 1%positive := [10; 20; 30; 40]%Z ]}.

(** A 1600x1200 image opened in an 800x600 viewport, then grabbed at
    (100, 100). *)
Definition wrap : Lightbox.Wrap := Lightbox.mkWrap 800 600 0 0 800 600.

Definition opened : Lightbox.Box :=
  Lightbox.step wrap (Lightbox.Opened 1600 1200) Lightbox.initial.

Definition grabbed : Lightbox.Box :=
  Lightbox.step wrap (Lightbox.PointerDown 100 100) opened.


(** The first image and the directory of the parsed sample listing. *)
Definition firstImage : Entry :=
  mkEntry KImg "http://h/photos/img10.jpg" "First" None (Some "jpg") (mkMeta None None).

Definition subDir : Entry :=
  mkEntry KDir "http://h/photos/sub/" "sub" (Some default) None (mkMeta None None).

(** A column sort link of an Apache listing. *)
Definition sortLink : Anchor := link "?C=N;O=D" "Name".

(** The same viewport and image on doubles: the image opened and grabbed at
    (100, 100); and the box after a click on Fit before any image is
    opened, then grabbed at (100, 100). *)
Definition wrap64 : Lightbox64.Wrap :=
  Lightbox64.mkWrap (Lightbox64.ofZ 800) (Lightbox64.ofZ 600)
                    Lightbox64.zero Lightbox64.zero
                    (Lightbox64.ofZ 800) (Lightbox64.ofZ 600).

Definition grabbed64 : Lightbox64.Box :=
  Lightbox64.run
    [ (wrap64, Lightbox64.Opened (Lightbox64.ofZ 1600) (Lightbox64.ofZ 1200));
      (wrap64, Lightbox64.PointerDown (Lightbox64.ofZ 100) (Lightbox64.ofZ 100)) ]
    Lightbox64.initial.


(** A viewport 700 wide and 500 high. *)
Definition narrow : Lightbox.Wrap := Lightbox.mkWrap 700 500 0 0 700 500.

(** A network in which the first request fails and the next ones answer. *)
Definition flaky (k : Datatypes.nat) : Probe.Attempt :=
  match k with
  | O => Probe.Rejected "TypeError" "Failed to fetch"
  | _ => Probe.Responded true 200 (Some "123") None (Some "image/png")
  end.

Definition iso (s : string) : option string := Some s.

Definition probed : MetadataCache.MetadataRecord :=
  MetadataCache.mkRecord (Some 123%Z) None (Some "image/png") None None None.

(** Three calls of a throttled function, at these times. *)
Definition calls : list (Z * unit) := [(1500, tt); (1800, tt); (2600, tt)]%Z.

(** A URL parser that knows one URL. *)
Definition parseURL (u : string) : option Nav.URL :=
  Some (Nav.mkURL "http://h" "http://h" (Nav.pathOf ["photos"; "2024"]) "?C=N" "#top").

(** Dates that all parse to the epoch. *)
Definition epoch (s : string) : option Z := Some 0%Z.
Definition locale (d : Z) : string := "1/1/1970".


End Sample.

(** * Theorems *)

(** ** Folder classifier *)

Example getFolderType_photos : getFolderType "Summer Vacation Photos" = photo.
Proof. vm_compute. reflexivity. Qed.

Example getFolderType_backup : getFolderType "Backup_2023" = archive.
Proof. vm_compute. reflexivity. Qed.

Example getFolderType_assorted : getFolderType "Assorted Stuff" = default.
Proof. vm_compute. reflexivity. Qed.

(** C4, the claim as stated fails: the name "Notes" is not classified as
    [document]; no term of the document pattern occurs in it. *)
Lemma getFolderType_Notes_not_document : getFolderType "Notes" <> document.
Proof. vm_compute. discriminate. Qed.

(** C4 (amended): [getFolderType] returns the first category, in the order
    video, audio, photo, archive, document, whose pattern occurs in the
    lower-cased name, and [default] when none does; "Summer Vacation Photos"
    is [photo], "Backup_2023" is [archive], "Assorted Stuff" is [default],
    and "Notes" is [default]. *)
Theorem getFolderType_first_match :
  (forall name : string,
     getFolderType name =
     match List.find (fun p => Re.test (snd p) (Str.toLowerCase name)) folderPatterns with
     | Some p => fst p
     | None => default
     end)
  /\ map fst folderPatterns = [video; audio; photo; archive; document]
  /\ getFolderType "Summer Vacation Photos" = photo
  /\ getFolderType "Backup_2023" = archive
  /\ getFolderType "Notes" = default
  /\ getFolderType "Assorted Stuff" = default.
Proof.
  split.
  - intros name. unfold getFolderType, folderPatterns. cbn [List.find fst snd].
    repeat (destruct (Re.test _ _); [reflexivity|]). reflexivity.
  - repeat split; vm_compute; reflexivity.
Qed.

(** ** Autoindex detector *)

Lemma hasPre_prePattern (doc : Document) :
  hasPre doc = false -> prePattern doc = false.
Proof. unfold hasPre, prePattern. destruct (pres doc); [reflexivity|discriminate]. Qed.

(** The decision of the code, with the cues of the specification: the
    second assignment to [hasDirectoryPattern] loses the result of the
    [pre] check only when a table is present, and then [hasPre && hasTable]
    already holds. *)
Lemma looksLikeAutoIndex_eq (doc : Document) :
  looksLikeAutoIndex doc =
  (hasIndexTitle doc || hasParentLink doc || directoryPattern doc
   || (hasPre doc && hasTable doc))
  && (3 <=? length (fileish doc))%nat.
Proof.
  unfold looksLikeAutoIndex, directoryPattern, tablePattern.
  f_equal.
  destruct (hasIndexTitle doc); [reflexivity|].
  destruct (hasParentLink doc); [reflexivity|]. cbn [orb].
  destruct (hasTable doc) eqn:Ht; destruct (hasPre doc) eqn:Hp; cbn [andb orb].
  - rewrite !orb_true_r. reflexivity.
  - rewrite (hasPre_prePattern doc Hp). rewrite !orb_false_r. reflexivity.
  - unfold prePattern. rewrite !orb_false_r. reflexivity.
  - rewrite (hasPre_prePattern doc Hp). reflexivity.
Qed.

(** The detector of [NiceThumbsBuddy.user.js] answers true exactly when one
    of the cues holds (index-style title, parent-directory anchor, directory
    content pattern in the [pre] block or in the table headings, or both a
    [pre] block and a table) and the page has at least three functional
    anchors; with fewer than three it answers false. *)
Lemma looksLikeAutoIndex_spec (doc : Document) :
  (looksLikeAutoIndex doc = true <->
     (hasIndexTitle doc = true \/ hasParentLink doc = true
      \/ (prePattern doc = true \/ tablePattern doc = true)
      \/ (hasPre doc = true /\ hasTable doc = true))
     /\ (3 <= length (fileish doc))%nat)
  /\ ((length (fileish doc) < 3)%nat -> looksLikeAutoIndex doc = false).
Proof.
  rewrite looksLikeAutoIndex_eq. unfold directoryPattern. split.
  - rewrite andb_true_iff, !orb_true_iff, andb_true_iff, Nat.leb_le. tauto.
  - intros Hlt. apply andb_false_iff. right. apply Nat.leb_gt. exact Hlt.
Qed.

(** The detector of [src/dom.js] accepts only pages the full detector
    accepts, and keeps the threshold of three functional anchors. *)
Lemma looksLikeAutoIndex_dom_sound (doc : Document) :
  Variants.looksLikeAutoIndex_dom doc = true ->
  looksLikeAutoIndex doc = true /\ (3 <= length (fileish doc))%nat.
Proof.
  rewrite looksLikeAutoIndex_eq. unfold Variants.looksLikeAutoIndex_dom.
  rewrite !andb_true_iff, !orb_true_iff, !andb_true_iff, Nat.leb_le. tauto.
Qed.

(** The detector of [soulful-thumbs] accepts every page the full detector
    accepts, and keeps the threshold as well. *)
Lemma looksLikeAutoIndex_soulful_complete (doc : Document) :
  looksLikeAutoIndex doc = true ->
  Variants.looksLikeAutoIndex_soulful doc = true.
Proof.
  rewrite looksLikeAutoIndex_eq. unfold Variants.looksLikeAutoIndex_soulful.
  unfold directoryPattern, tablePattern.
  rewrite !andb_true_iff, !orb_true_iff, !andb_true_iff.
  intros [H Hn]. split; [|exact Hn].
  destruct H as [[[H|H]|[H|[H _]]]|[H _]]; auto.
  destruct (hasPre doc) eqn:Hp; [auto|].
  rewrite (hasPre_prePattern doc Hp) in H. discriminate.
Qed.

(** C1: the detector of [NiceThumbsBuddy.user.js] decides as the claim
    says: true exactly when one of the four cues holds and the page has at
    least three functional anchors. The detector of [src/dom.js] does not:
    it never looks for the directory content pattern, so on a page whose
    only cue is an Apache-style line in its [pre] block, with three
    functional anchors, it answers false where the claim (and the other
    detector) says true. In both, a page with fewer than three functional
    anchors is never an autoindex page. *)
Theorem looksLikeAutoIndex_dom_misses_pattern :
  (forall doc,
     looksLikeAutoIndex doc = true <->
     (hasIndexTitle doc = true \/ hasParentLink doc = true
      \/ (prePattern doc = true \/ tablePattern doc = true)
      \/ (hasPre doc = true /\ hasTable doc = true))
     /\ (3 <= length (fileish doc))%nat)
  /\ (forall doc,
        Variants.looksLikeAutoIndex_dom doc = true <->
        (hasIndexTitle doc = true \/ hasParentLink doc = true
         \/ (hasPre doc = true /\ hasTable doc = true))
        /\ (3 <= length (fileish doc))%nat)
  /\ (prePattern Sample.apachePre = true
      /\ length (fileish Sample.apachePre) = 3%nat
      /\ looksLikeAutoIndex Sample.apachePre = true
      /\ Variants.looksLikeAutoIndex_dom Sample.apachePre = false).
Proof.
  split; [|split].
  - intros doc. exact (proj1 (looksLikeAutoIndex_spec doc)).
  - intros doc. unfold Variants.looksLikeAutoIndex_dom.
    rewrite andb_true_iff, !orb_true_iff, andb_true_iff, Nat.leb_le. tauto.
  - repeat split; vm_compute; reflexivity.
Qed.

(** ** Listing parser *)

Lemma uniqFrom_elem (seen : gset string) (l : list Entry) (e : Entry) :
  e ∈ uniqFrom seen l -> e ∈ l /\ url e ∉ seen.
Proof.
  revert seen. induction l as [|x l IH]; intros seen; cbn [uniqFrom].
  - intros H. inversion H.
  - destruct (decide (url x ∈ seen)) as [Hin|Hnin].
    + intros H. destruct (IH _ H) as [H1 H2]. split; [now constructor|exact H2].
    + intros H. apply elem_of_cons in H as [->|H].
      * split; [constructor|exact Hnin].
      * destruct (IH _ H) as [H1 H2]. split; [now constructor|].
        intros Hs. apply H2. apply elem_of_union. now right.
Qed.



Lemma uniqFrom_complete (seen : gset string) (l : list Entry) (x : Entry) :
  x ∈ l -> url x ∉ seen -> exists e, e ∈ uniqFrom seen l /\ url e = url x.
Proof.
  revert seen. induction l as [|y l IH]; intros seen Hx Hs; cbn [uniqFrom].
  - inversion Hx.
  - destruct (decide (url y ∈ seen)) as [Hin|Hnin].
    + apply elem_of_cons in Hx as [->|Hx]; [contradiction|]. now apply IH.
    + destruct (decide (url y = url x)) as [Heq|Hne].
      * exists y. split; [constructor|exact Heq].
      * apply elem_of_cons in Hx as [->|Hx]; [congruence|].
        destruct (IH ({[url y]} ∪ seen) Hx) as [e [He Hu]].
        { intros Hu. apply elem_of_union in Hu as [Hu|Hu]; [|contradiction].
          apply elem_of_singleton in Hu. congruence. }
        exists e. split; [now constructor|exact Hu].
Qed.

Lemma uniqFrom_length (seen : gset string) (l : list Entry) :
  (length (uniqFrom seen l) <= length l)%nat.
Proof.
  revert seen. induction l as [|x l IH]; intros seen; cbn [uniqFrom length].
  - lia.
  - destruct (decide (url x ∈ seen)); cbn [length].
    + specialize (IH seen). lia.
    + specialize (IH ({[url x]} ∪ seen)). lia.
Qed.



Lemma ofKind_app (k : Kind) (l1 l2 : list Entry) :
  ofKind k (l1 ++ l2) = ofKind k l1 ++ ofKind k l2.
Proof. apply List.filter_app. Qed.

Lemma ofKind_length (es : list Entry) :
  (length (ofKind KDir es) + length (ofKind KImg es) + length (ofKind KFile es)
   = length es)%nat.
Proof.
  induction es as [|e es IH]; [reflexivity|].
  unfold ofKind in *. cbn [List.filter length].
  destruct (kind e); cbn [Kind_eqb length]; lia.
Qed.

Section ParserFacts.

Variable resolveURL : string -> string -> option string.
Variable decodeURIComponent : string -> option string.
Variable nat : string -> string -> Z.
Variable MAX_ITEMS_PAGE : Z.

#[local] Abbreviation loop := (parseLoop resolveURL decodeURIComponent MAX_ITEMS_PAGE).
#[local] Abbreviation made := (produced resolveURL decodeURIComponent).

Lemma total_push (b : Buckets) (e : Entry) : total (push b e) = (total b + 1)%Z.
Proof.
  unfold push, total. destruct (kind e); cbn; rewrite ?length_app; cbn; lia.
Qed.

Lemma bucket_push (k : Kind) (b : Buckets) (e : Entry) :
  bucket k (push b e) = bucket k b ++ ofKind k [e].
Proof.
  unfold push, ofKind. cbn [List.filter].
  destruct (kind e), k; cbn; rewrite ?app_nil_r; reflexivity.
Qed.

(** One turn of the loop, by what the anchor produces. *)
Lemma parseLoop_cons (baseUrl : string) (a : Anchor) (rest : list Anchor) (b : Buckets) :
  match made baseUrl a with
  | Some e =>
      loop baseUrl (a :: rest) b =
      if (MAX_ITEMS_PAGE <=? total (push b e))%Z then Some (push b e)
      else loop baseUrl rest (push b e)
  | None =>
      loop baseUrl (a :: rest) b = None
      \/ loop baseUrl (a :: rest) b = loop baseUrl rest b
      \/ (loop baseUrl (a :: rest) b = Some b /\ (MAX_ITEMS_PAGE <= total b)%Z)
  end.
Proof.
  unfold produced. cbn [parseLoop].
  destruct (isSelfOrParent (hrefOf a)); [auto|].
  destruct (negb (isFunctionalLink a)); [auto|].
  destruct (rawName decodeURIComponent a _) as [s|]; [|auto].
  destruct (Str.isEmpty (cleanName s)); [auto|].
  destruct (isDirHref (hrefOf a)); [reflexivity|].
  destruct (isImgHref (hrefOf a)); [reflexivity|].
  destruct (isFileHref (hrefOf a)); [reflexivity|].
  destruct (Z.leb_spec MAX_ITEMS_PAGE (total b)); auto.
Qed.

(** The buckets hold the entries produced by a prefix of the anchors. *)
Lemma parseLoop_prefix (baseUrl : string) (anchors : list Anchor) (b b' : Buckets) :
  loop baseUrl anchors b = Some b' ->
  exists n, forall k,
    bucket k b' = bucket k b ++ ofKind k (take n (omap (made baseUrl) anchors)).
Proof.
  revert b. induction anchors as [|a rest IH]; intros b H.
  - injection H as <-. exists O. intros k. cbn. now rewrite app_nil_r.
  - pose proof (parseLoop_cons baseUrl a rest b) as Hc.
    cbn [omap list_omap]. fold (omap (made baseUrl) rest).
    destruct (made baseUrl a) as [e|].
    + rewrite Hc in H. destruct (MAX_ITEMS_PAGE <=? total (push b e))%Z.
      * injection H as <-. exists 1%nat. intros k. cbn [take]. apply bucket_push.
      * destruct (IH _ H) as [n Hn]. exists (S n). intros k.
        rewrite Hn, bucket_push. cbn [take].
        change (e :: take n (omap (made baseUrl) rest))
          with ([e] ++ take n (omap (made baseUrl) rest)).
        now rewrite ofKind_app, app_assoc.
    + destruct Hc as [Hc|[Hc|[Hc _]]]; rewrite Hc in H.
      * discriminate.
      * exact (IH _ H).
      * injection H as <-. exists O. intros k. cbn. now rewrite app_nil_r.
Qed.

(** Below the guard, the loop takes produced entries until the guard is
    reached. *)
Lemma parseLoop_exact (baseUrl : string) (anchors : list Anchor) (b b' : Buckets) :
  (total b < MAX_ITEMS_PAGE)%Z ->
  loop baseUrl anchors b = Some b' ->
  forall k,
    bucket k b' =
    bucket k b ++ ofKind k (take (Z.to_nat (MAX_ITEMS_PAGE - total b))
                                 (omap (made baseUrl) anchors)).
Proof.
  revert b. induction anchors as [|a rest IH]; intros b Hlt H k.
  - injection H as <-. cbn. rewrite take_nil. cbn. now rewrite app_nil_r.
  - pose proof (parseLoop_cons baseUrl a rest b) as Hc.
    cbn [omap list_omap]. fold (omap (made baseUrl) rest).
    destruct (made baseUrl a) as [e|].
    + rewrite Hc in H. rewrite total_push in H.
      destruct (Z.to_nat (MAX_ITEMS_PAGE - total b)) as [|m] eqn:Hm; [lia|].
      cbn [take].
      change (e :: take m (omap (made baseUrl) rest))
        with ([e] ++ take m (omap (made baseUrl) rest)).
      rewrite ofKind_app, app_assoc, <- bucket_push.
      destruct (Z.leb_spec MAX_ITEMS_PAGE (total b + 1)) as [Hge|Hlt'].
      * injection H as <-. assert (m = O) as -> by lia.
        cbn. now rewrite app_nil_r.
      * rewrite (IH (push b e)); [|rewrite total_push; lia|exact H].
        rewrite total_push. do 3 f_equal. lia.
    + destruct Hc as [Hc|[Hc|[_ Hc]]]; [rewrite Hc in H; discriminate| |lia].
      rewrite Hc in H. now apply IH.
Qed.

(** The loop returns when no anchor it visits makes [decodeURIComponent]
    throw; an anchor with text never calls it. *)
Lemma parseLoop_returns (baseUrl : string) (anchors : list Anchor) (b : Buckets) :
  (forall a, a ∈ anchors -> textContent a <> "") ->
  is_Some (loop baseUrl anchors b).
Proof.
  revert b. induction anchors as [|a rest IH]; intros b Ht; [now eexists|].
  assert (is_Some (loop baseUrl rest b)) as Hb by (apply IH; intros; apply Ht; now constructor).
  cbn [parseLoop].
  destruct (isSelfOrParent (hrefOf a)); [exact Hb|].
  destruct (negb (isFunctionalLink a)); [exact Hb|].
  unfold rawName. destruct (textContent a) eqn:Hta.
  - exfalso. apply (Ht a); [constructor|exact Hta].
  - cbn [Str.isEmpty].
    destruct (Str.isEmpty _); [exact Hb|].
    destruct (_ <=? _)%Z; [now eexists|].
    apply IH. intros; apply Ht; now constructor.
Qed.

End ParserFacts.




Section ParseIndexFacts.

Variable resolveURL : string -> string -> option string.
Variable decodeURIComponent : string -> option string.
Variable nat : string -> string -> Z.
Variable MAX_ITEMS_PAGE : Z.

(** The comparator is consistent: any two names are comparable, and the
    order is transitive. *)
Hypothesis nat_total : forall a b, (nat a b <= 0)%Z \/ (nat b a <= 0)%Z.
Hypothesis nat_trans :
  forall a b c, (nat a b <= 0)%Z -> (nat b c <= 0)%Z -> (nat a c <= 0)%Z.

Lemma insertByName_perm (x : Entry) (l : list Entry) :
  insertByName nat x l ≡ₚ x :: l.
Proof.
  induction l as [|y l IH]; cbn [insertByName]; [reflexivity|].
  destruct (byName nat x y <=? 0)%Z; [reflexivity|].
  rewrite IH. apply perm_swap.
Qed.

Lemma sortByName_perm (l : list Entry) : sortByName nat l ≡ₚ l.
Proof.
  induction l as [|x l IH]; cbn [sortByName]; [reflexivity|].
  rewrite insertByName_perm. now apply perm_skip.
Qed.



(** What [parseIndex] returns, bucket by bucket. *)
Lemma parseIndex_buckets (doc : Document) (baseUrl : string) (r : Buckets) :
  parseIndex resolveURL decodeURIComponent nat MAX_ITEMS_PAGE doc baseUrl = Some r ->
  exists b,
    parseLoop resolveURL decodeURIComponent MAX_ITEMS_PAGE baseUrl
              (pickAnchors SELECTORS doc []) (mkBuckets [] [] []) = Some b
    /\ forall k, bucket k r = sortByName nat (uniq (bucket k b)).
Proof.
  unfold parseIndex. destruct (parseLoop _ _ _ _ _ _) as [b|]; [|discriminate].
  intros H. injection H as <-. exists b. split; [reflexivity|].
  intros []; reflexivity.
Qed.

End ParseIndexFacts.

(** The reference comparator orders digit runs as numbers. *)
Example natural_sort_names :
  map name
    (sortByName NatRef.compare
       (map (fun n => mkEntry KImg n n None None noMeta)
            ["img10.jpg"; "img2.jpg"; "img1.jpg"]))
  = ["img1.jpg"; "img2.jpg"; "img10.jpg"].
Proof. vm_compute. reflexivity. Qed.

Example parseIndex_photos_names :
  map name (images (Sample.parsed 12000 Sample.photos)) = ["First"; "img2.jpg"]
  /\ map name (dirs (Sample.parsed 12000 Sample.photos)) = ["sub"]
  /\ map name (files (Sample.parsed 12000 Sample.photos)) = ["notes.pdf"].
Proof. vm_compute. auto. Qed.

Lemma sortByName_uniq_length (nat : string -> string -> Z) (l : list Entry) :
  (length (sortByName nat (uniq l)) <= length l)%nat.
Proof.
  rewrite (Permutation_length (sortByName_perm nat (uniq l))). apply uniqFrom_length.
Qed.

(** [parseIndex] returns when every selected anchor has text. *)
Lemma parseIndex_returns
    (resolveURL : string -> string -> option string)
    (decodeURIComponent : string -> option string)
    (nat : string -> string -> Z) (MAX_ITEMS_PAGE : Z)
    (doc : Document) (baseUrl : string) :
  (forall a, a ∈ pickAnchors SELECTORS doc [] -> textContent a <> "") ->
  is_Some (parseIndex resolveURL decodeURIComponent nat MAX_ITEMS_PAGE doc baseUrl).
Proof.
  intros Ht. unfold parseIndex.
  destruct (parseLoop_returns resolveURL decodeURIComponent MAX_ITEMS_PAGE baseUrl
              _ (mkBuckets [] [] []) Ht) as [b ->].
  now eexists.
Qed.

(** The loop below the guard, then deduplication and sorting. *)
Lemma parseIndex_take
    (resolveURL : string -> string -> option string)
    (decodeURIComponent : string -> option string)
    (nat : string -> string -> Z) (MAX_ITEMS_PAGE : Z)
    (doc : Document) (baseUrl : string) (r : Buckets) :
  (1 <= MAX_ITEMS_PAGE)%Z ->
  parseIndex resolveURL decodeURIComponent nat MAX_ITEMS_PAGE doc baseUrl = Some r ->
  forall k,
    bucket k r =
    sortByName nat
      (uniq (ofKind k (take (Z.to_nat MAX_ITEMS_PAGE)
                            (omap (produced resolveURL decodeURIComponent baseUrl)
                                  (pickAnchors SELECTORS doc []))))).
Proof.
  intros Hmax H k.
  destruct (parseIndex_buckets _ _ _ _ _ _ _ H) as [b [Hb Hr]].
  rewrite Hr.
  assert (total (mkBuckets [] [] []) < MAX_ITEMS_PAGE)%Z as H0 by (unfold total; cbn; lia).
  rewrite (parseLoop_exact _ _ _ _ _ _ _ H0 Hb k).
  unfold total at 1. cbn [dirs images files length Nat.add].
  replace (MAX_ITEMS_PAGE - Z.of_nat 0)%Z with MAX_ITEMS_PAGE by lia.
  destruct k; reflexivity.
Qed.

Lemma parseIndex_total_le
    (resolveURL : string -> string -> option string)
    (decodeURIComponent : string -> option string)
    (nat : string -> string -> Z) (MAX_ITEMS_PAGE : Z)
    (doc : Document) (baseUrl : string) (r : Buckets) :
  (1 <= MAX_ITEMS_PAGE)%Z ->
  parseIndex resolveURL decodeURIComponent nat MAX_ITEMS_PAGE doc baseUrl = Some r ->
  (total r <= MAX_ITEMS_PAGE)%Z.
Proof.
  intros Hmax H. pose proof (parseIndex_take _ _ _ _ _ _ _ Hmax H) as Hk.
  unfold total.
  change (dirs r) with (bucket KDir r). change (images r) with (bucket KImg r).
  change (files r) with (bucket KFile r). rewrite !Hk.
  set (es := take _ _).
  pose proof (sortByName_uniq_length nat (ofKind KDir es)).
  pose proof (sortByName_uniq_length nat (ofKind KImg es)).
  pose proof (sortByName_uniq_length nat (ofKind KFile es)).
  pose proof (ofKind_length es).
  assert (length es <= Z.to_nat MAX_ITEMS_PAGE)%nat by (subst es; rewrite length_take; lia).
  lia.
Qed.

Lemma elem_of_ofKind (k : Kind) (e : Entry) (es : list Entry) :
  e ∈ ofKind k es <-> e ∈ es /\ kind e = k.
Proof.
  unfold ofKind. rewrite !list_elem_of_In, filter_In.
  destruct (kind e), k; cbn; intuition congruence.
Qed.

Lemma elem_of_select (sel : Selector) (doc : Document) (a : Anchor) :
  a ∈ select sel doc <->
  a ∈ anchors doc /\ hasHrefAttr a = true
  /\ match sel with
     | PreAnchors => inPre a = true
     | TableAnchors => inTable a = true
     | AllAnchors => True
     end.
Proof.
  destruct sel; cbn [select]; rewrite !list_elem_of_In, filter_In, ?andb_true_iff; tauto.
Qed.

Lemma select_nil (sel : Selector) (doc : Document) (a : Anchor) :
  select sel doc = [] -> a ∈ select sel doc -> False.
Proof. intros -> H. inversion H. Qed.

(** The anchors [parseIndex] walks: those of the first selector that finds
    any. *)
Lemma pickAnchors_cases (doc : Document) :
  (select PreAnchors doc <> [] /\ pickAnchors SELECTORS doc [] = select PreAnchors doc)
  \/ (select PreAnchors doc = [] /\ select TableAnchors doc <> []
      /\ pickAnchors SELECTORS doc [] = select TableAnchors doc)
  \/ (select PreAnchors doc = [] /\ select TableAnchors doc = []
      /\ pickAnchors SELECTORS doc [] = select AllAnchors doc).
Proof.
  unfold SELECTORS. cbn [pickAnchors].
  destruct (select PreAnchors doc) eqn:Hp; [|left; split; [discriminate|reflexivity]].
  destruct (select TableAnchors doc) eqn:Ht;
    [|right; left; split; [reflexivity|split; [discriminate|reflexivity]]].
  right; right. destruct (select AllAnchors doc); auto.
Qed.



(** C3: with a per-page maximum of at least one, the loop of [parseIndex]
    accumulates the entries of the anchors in order and stops once their
    number reaches the maximum: before deduplication the buckets hold the
    first [MAX_ITEMS_PAGE] produced entries, and the three returned lists
    together never hold more than [MAX_ITEMS_PAGE] entries. *)
Theorem parseIndex_bounded
    (resolveURL : string -> string -> option string)
    (decodeURIComponent : string -> option string)
    (nat : string -> string -> Z) (MAX_ITEMS_PAGE : Z)
    (doc : Document) (baseUrl : string) (r : Buckets) :
  (1 <= MAX_ITEMS_PAGE)%Z ->
  parseIndex resolveURL decodeURIComponent nat MAX_ITEMS_PAGE doc baseUrl = Some r ->
  (forall k,
     bucket k r =
     sortByName nat
       (uniq (ofKind k (take (Z.to_nat MAX_ITEMS_PAGE)
                             (omap (produced resolveURL decodeURIComponent baseUrl)
                                   (pickAnchors SELECTORS doc []))))))
  /\ (total r <= MAX_ITEMS_PAGE)%Z.
Proof.
  intros Hmax H. split.
  - now apply parseIndex_take.
  - now apply (parseIndex_total_le resolveURL decodeURIComponent nat MAX_ITEMS_PAGE doc baseUrl).
Qed.

(** C3, a run with a maximum of two: the loop stops after the two anchors
    for [img10.jpg]. *)
Lemma parseIndex_bounded_witness :
  (forall k,
     bucket k (Sample.parsed 2 Sample.photos) =
     sortByName NatRef.compare
       (uniq (ofKind k (take (Z.to_nat 2)
                             (omap (produced Sample.resolve Sample.decode Sample.base)
                                   (pickAnchors SELECTORS Sample.photos []))))))
  /\ (total (Sample.parsed 2 Sample.photos) <= 2)%Z.
Proof.
  apply (parseIndex_bounded Sample.resolve Sample.decode NatRef.compare 2
           Sample.photos Sample.base (Sample.parsed 2 Sample.photos)).
  - lia.
  - vm_compute. reflexivity.
Defined.

(** With the constant of the source, at most 12000 entries are returned. *)
Corollary parseIndex_total_default
    (resolveURL : string -> string -> option string)
    (decodeURIComponent : string -> option string)
    (nat : string -> string -> Z)
    (doc : Document) (baseUrl : string) (r : Buckets) :
  parseIndex resolveURL decodeURIComponent nat MAX_ITEMS_PAGE_default doc baseUrl = Some r ->
  (total r <= 12000)%Z.
Proof.
  intros H.
  assert (1 <= MAX_ITEMS_PAGE_default)%Z as Hmax by (unfold MAX_ITEMS_PAGE_default; lia).
  exact (parseIndex_total_le _ _ _ _ _ _ _ Hmax H).
Qed.

Example parseIndex_max_two :
  map name (images (Sample.parsed 2 Sample.photos)) = ["First"]
  /\ dirs (Sample.parsed 2 Sample.photos) = []
  /\ files (Sample.parsed 2 Sample.photos) = [].
Proof. vm_compute. auto. Qed.

(** The content pattern on the text of a [pre] block: a date, a size and a
    following word. It is searched in the whole text, so the white space
    after the size may be a line break. *)
Example preListingTest_apache :
  preListingTest "a.jpg  02-Jan-2020 10:11  12K  JPEG image" = true
  /\ preListingTest "a.jpg  2020-01-02 10:11  1.5M  JPEG image" = true
  /\ preListingTest "a.jpg  2020-01-02 10:11" = false
  /\ preListingTest ("2020-01-02 10:11 12K" +:+ Build.newline +:+ "b.jpg") = true.
Proof. vm_compute. auto. Qed.

(** The detector on the sample pages. *)
Example looksLikeAutoIndex_photos : looksLikeAutoIndex Sample.photos = true.
Proof. vm_compute. reflexivity. Qed.

Example looksLikeAutoIndex_sparse : looksLikeAutoIndex Sample.sparse = false.
Proof. vm_compute. reflexivity. Qed.

(** ** Lightbox *)

Module LightboxFacts.

Import Lightbox.
Local Open Scope Q_scope.

Lemma clamp_lower (v lo hi : Q) : lo <= clamp v lo hi.
Proof. unfold clamp. apply Q.le_max_l. Qed.

Lemma clamp_upper (v lo hi : Q) : lo <= hi -> clamp v lo hi <= hi.
Proof. intros H. unfold clamp. apply Q.max_lub; [exact H|apply Q.le_min_l]. Qed.

Lemma clamp_abs (v lim : Q) : 0 <= lim -> Qabs (clamp v (- lim) lim) <= lim.
Proof.
  intros H. apply Qabs_Qle_condition. split.
  - apply clamp_lower.
  - apply clamp_upper. lra.
Qed.

(** After [clampPan] both offsets are within the limits. *)
Lemma clampPan_bound (r : Wrap) (s : State) :
  Qabs (x (clampPan r s)) <= limX r (clampPan r s)
  /\ Qabs (y (clampPan r s)) <= limY r (clampPan r s).
Proof.
  unfold limX, limY, clampPan. cbn [x y z w h].
  split; apply clamp_abs; apply Q.le_max_l.
Qed.





(** Every handler keeps [min] and [max]. *)
Lemma step_bounds_ok (r : Wrap) (ev : Event) (b : Box) :
  bounds_ok (st b) -> bounds_ok (st (step r ev b)).
Proof.
  intros Hb. destruct ev as [| | | d c m cx cy | | cx cy | | [] |]; cbn [step withSt st];
    try exact Hb; try (split; reflexivity).
  - destruct (negb _); exact Hb.
  - generalize (st b) Hb. induction (drags b) as [|dg l IH]; intros s Hs; [exact Hs|].
    cbn [fold_left]. apply IH. exact Hs.
Qed.

Lemma initial_bounds_ok : bounds_ok (st initial).
Proof. split; reflexivity. Qed.


End LightboxFacts.




Example lightbox_drag_stops :
  let s := Lightbox.st (Lightbox.step Sample.wrap (Lightbox.PointerMove 5000 5000)
                                      Sample.grabbed) in
  (Lightbox.x s == 400 /\ Lightbox.y s == 300)%Q.
Proof. vm_compute. split; reflexivity. Qed.

(** ** Metadata cache *)

Module CacheFacts.

Import MetadataCache.

Lemma mapSet_fresh (k : string) (v : MetadataRecord) (m : JsMap) :
  k ∉ keys m -> mapSet k v m = m ++ [(k, v)].
Proof.
  induction m as [|[k' v'] m IH]; intros Hk; [reflexivity|].
  cbn [mapSet app]. cbn [keys map fst] in Hk.
  apply not_elem_of_cons in Hk as [Hne Hk].
  destruct (String.eqb_spec k' k) as [Heq|_]; [congruence|].
  f_equal. apply IH. exact Hk.
Qed.

Lemma keys_app (l1 l2 : JsMap) : keys (l1 ++ l2) = keys l1 ++ keys l2.
Proof. unfold keys. apply map_app. Qed.

(** Setting the entries of a map with distinct keys, in order, into an
    empty map rebuilds it. *)
Lemma replay (l acc : JsMap) :
  NoDup (keys (acc ++ l)) ->
  fold_left (fun c kv => mapSet (fst kv) (snd kv) c) l acc = acc ++ l.
Proof.
  revert acc. induction l as [|[k v] l IH]; intros acc Hnd; cbn [fold_left fst snd].
  - now rewrite app_nil_r.
  - rewrite mapSet_fresh.
    + rewrite IH; rewrite <- app_assoc; [reflexivity|exact Hnd].
    + rewrite keys_app in Hnd. apply NoDup_app in Hnd as (_ & Hd & _).
      intros Hin. apply (Hd k Hin). constructor.
Qed.

Lemma keys_drop (n : Datatypes.nat) (l : JsMap) : keys (drop n l) = drop n (keys l).
Proof. unfold keys. symmetry. apply skipn_map. Qed.

Lemma NoDup_keys_drop (n : Datatypes.nat) (l : JsMap) :
  NoDup (keys l) -> NoDup (keys (drop n l)).
Proof. rewrite keys_drop. intros H. eapply sublist_NoDup; [exact H|apply sublist_drop]. Qed.

Lemma keepCount_eq : keepCount = 8000%Z.
Proof. reflexivity. Qed.

(** The pruning block on a map above the cap: the last 8000 entries. *)
Lemma prune_above (c : JsMap) :
  NoDup (keys c) -> (CACHE_MAX_SIZE < size c)%Z ->
  prune c = drop (length c - Z.to_nat 8000) c /\ size (prune c) = 8000%Z.
Proof.
  intros Hnd Hbig. unfold prune.
  destruct (Z.ltb_spec CACHE_MAX_SIZE (size c)) as [_|Hle]; [|lia].
  rewrite keepCount_eq. unfold sliceLast.
  change (8000 =? 0)%Z with false. cbv iota.
  rewrite (replay _ []); [|now apply NoDup_keys_drop]. cbn [app].
  split; [reflexivity|].
  unfold size, CACHE_MAX_SIZE in *. rewrite length_drop. lia.
Qed.

Lemma prune_below (c : JsMap) : (size c <= CACHE_MAX_SIZE)%Z -> prune c = c.
Proof.
  intros Hle. unfold prune.
  destruct (Z.ltb_spec CACHE_MAX_SIZE (size c)) as [Hlt|_]; [lia|reflexivity].
Qed.

(** After the pruning block the map is within the cap. *)
Lemma prune_within (c : JsMap) :
  NoDup (keys c) -> (size (prune c) <= CACHE_MAX_SIZE)%Z.
Proof.
  intros Hnd. destruct (Z.lt_ge_cases CACHE_MAX_SIZE (size c)) as [Hlt|Hge].
  - destruct (prune_above c Hnd Hlt) as [_ ->]. unfold CACHE_MAX_SIZE. lia.
  - rewrite prune_below; lia.
Qed.

Lemma mapGet_last (k : string) (v : MetadataRecord) (l : JsMap) :
  k ∉ keys l -> mapGet k (l ++ [(k, v)]) = Some v.
Proof.
  induction l as [|[k' v'] l IH]; intros Hk; cbn [mapGet app].
  - now rewrite String.eqb_refl.
  - cbn [keys map fst] in Hk. apply not_elem_of_cons in Hk as [Hne Hk].
    destruct (String.eqb_spec k' k) as [Heq|_]; [congruence|]. now apply IH.
Qed.

Lemma drop_snoc (n : Datatypes.nat) (l : JsMap) (kv : string * MetadataRecord) :
  (n <= length l)%nat -> drop n (l ++ [kv]) = drop n l ++ [kv].
Proof. intros H. now apply drop_app_le. Qed.

Lemma urlOf_inj (i j : Z) : (0 <= i)%Z -> (0 <= j)%Z -> urlOf i = urlOf j -> i = j.
Proof.
  intros Hi Hj H. unfold urlOf in H. injection H as H.
  assert (Hnn : forall n : N, N.to_uint n <> Decimal.Nil).
  { intros [|p]; [discriminate|apply DecimalPos.Unsigned.to_uint_nonnil]. }
  assert (N.to_uint (Z.to_N i) = N.to_uint (Z.to_N j)) as Hu.
  { pose proof (NilZero.usu _ (Hnn (Z.to_N i))) as H1.
    pose proof (NilZero.usu _ (Hnn (Z.to_N j))) as H2.
    rewrite H in H1. congruence. }
  apply DecimalN.Unsigned.to_uint_inj in Hu. lia.
Qed.

Lemma mapGet_fresh (k : string) (m : JsMap) : k ∉ keys m -> mapGet k m = None.
Proof.
  induction m as [|[k' v'] m IH]; intros Hk; [reflexivity|].
  cbn [mapGet]. cbn [keys map fst] in Hk.
  apply not_elem_of_cons in Hk as [Hne Hk].
  destruct (String.eqb_spec k' k) as [Heq|_]; [congruence|]. now apply IH.
Qed.

(** [noteImageSize] for an image not yet in the cache adds its record. *)
Lemma noteImageSize_fresh (i wd ht now : Z) (out : Outcome) (m : Manager) :
  urlOf i ∉ keys (cache m) ->
  noteImageSize (urlOf i) wd ht now out m =
  setAndSave (urlOf i) (mkRecord None None None None (Some wd) (Some ht)) now out m.
Proof.
  intros Hfresh. unfold noteImageSize. cbn [urlOf Str.isEmpty].
  now rewrite (mapGet_fresh _ _ Hfresh).
Qed.

(** Calls inside the throttle interval only add to the map. *)
Lemma burst_throttled (n : Datatypes.nat) (now : Z) (m : Manager) :
  (now - lastCall m < 1000)%Z ->
  (forall i, (0 <= i < Z.of_nat n)%Z -> urlOf i ∉ keys (cache m)) ->
  size (cache (burst n now m)) = (size (cache m) + Z.of_nat n)%Z.
Proof.
  revert m. induction n as [|n IH]; intros m Hthr Hfresh; [cbn [burst]; lia|].
  cbn [burst]. rewrite noteImageSize_fresh by (apply Hfresh; lia).
  unfold setAndSave, saveThrottled. cbn [lastCall cache].
  destruct (Z.ltb_spec (now - lastCall m) 1000) as [_|Hge]; [|lia].
  rewrite IH; cbn [lastCall cache]; [|exact Hthr|].
  - rewrite mapSet_fresh by (apply Hfresh; lia).
    unfold size. rewrite length_app. cbn [length]. lia.
  - intros i Hi. rewrite mapSet_fresh by (apply Hfresh; lia).
    rewrite keys_app. apply not_elem_of_app. split; [apply Hfresh; lia|].
    cbn. intros Hin. apply list_elem_of_singleton in Hin.
    apply urlOf_inj in Hin; lia.
Qed.

(** A burst on a new manager: the first save runs, the others are dropped. *)
Lemma burst_create (n : Datatypes.nat) (now : Z) :
  (1000 <= now)%Z -> (0 < n)%nat ->
  size (cache (burst n now create)) = Z.of_nat n.
Proof.
  intros Hnow Hn. destruct n as [|n]; [lia|]. cbn [burst].
  assert (noteImageSize (urlOf (Z.of_nat n)) 640 480 now Stored create
          = mkManager [(urlOf (Z.of_nat n),
                        mkRecord None None None None (Some 640%Z) (Some 480%Z))] now) as ->.
  { rewrite noteImageSize_fresh by apply not_elem_of_nil.
    unfold setAndSave, saveThrottled, create. cbn [lastCall cache mapSet].
    destruct (Z.ltb_spec (now - 0) 1000) as [Hlt|_]; [lia|]. reflexivity. }
  rewrite burst_throttled; cbn [lastCall cache].
  - unfold size. cbn [length]. lia.
  - lia.
  - intros i Hi. cbn. intros Hin. apply list_elem_of_singleton in Hin.
    apply urlOf_inj in Hin; lia.
Qed.

End CacheFacts.

(** C7, the claim as stated fails: [noteImageSize] called for 10,001
    distinct images within the same second leaves 10,001 records in the
    cache; only the save of the first call runs, the others are dropped by
    the throttle and nothing is pruned. *)
Lemma cache_burst_exceeds_cap :
  MetadataCache.getCacheSize
    (MetadataCache.burst (Z.to_nat 10001) 1700000000000 MetadataCache.create)
  = 10001%Z
  /\ ~ (MetadataCache.getCacheSize
          (MetadataCache.burst (Z.to_nat 10001) 1700000000000 MetadataCache.create)
        <= MetadataCache.CACHE_MAX_SIZE)%Z.
Proof.
  assert (MetadataCache.getCacheSize
    (MetadataCache.burst (Z.to_nat 10001) 1700000000000 MetadataCache.create)
    = 10001%Z) as H.
  { unfold MetadataCache.getCacheSize. rewrite CacheFacts.burst_create by lia. lia. }
  split; [exact H|]. rewrite H. unfold MetadataCache.CACHE_MAX_SIZE. lia.
Qed.

(** C7 (amended): when a record is added for a URL not yet in the cache and
    the save that follows is not dropped by the throttle (the last save
    that ran is at least a second old) and does not hit the storage quota,
    the cache then holds at most 10,000 records: the records unchanged when
    there are at most 10,000 of them, and otherwise exactly the 8,000 most
    recently added ones (80% of the cap); in both cases the record just
    added is kept. So the 10,001st distinct record, saved this way, leaves
    8,000. *)
Theorem cache_prune_on_save
    (m : MetadataCache.Manager) (url : string)
    (rec : MetadataCache.MetadataRecord) (now : Z) (out : MetadataCache.Outcome) :
  NoDup (MetadataCache.keys (MetadataCache.cache m)) ->
  url ∉ MetadataCache.keys (MetadataCache.cache m) ->
  (1000 <= now - MetadataCache.lastCall m)%Z ->
  out <> MetadataCache.QuotaExceededError ->
  let all := MetadataCache.cache m ++ [(url, rec)] in
  let m' := MetadataCache.setAndSave url rec now out m in
  (MetadataCache.size (MetadataCache.cache m') <= MetadataCache.CACHE_MAX_SIZE)%Z
  /\ ((MetadataCache.size all <= MetadataCache.CACHE_MAX_SIZE)%Z ->
      MetadataCache.cache m' = all)
  /\ ((MetadataCache.CACHE_MAX_SIZE < MetadataCache.size all)%Z ->
      MetadataCache.cache m' = drop (length all - Z.to_nat 8000) all
      /\ MetadataCache.size (MetadataCache.cache m') = 8000%Z)
  /\ MetadataCache.mapGet url (MetadataCache.cache m') = Some rec.
Proof.
  intros Hnd Hfresh Hthr Hout all m'.
  assert (Hall : NoDup (MetadataCache.keys all)).
  { subst all. rewrite CacheFacts.keys_app. apply NoDup_app. split; [exact Hnd|].
    split; [|cbn; apply NoDup_singleton].
    intros k Hk Hin. cbn in Hin. apply list_elem_of_singleton in Hin. congruence. }
  assert (Hm' : MetadataCache.cache m' = MetadataCache.prune all).
  { subst m' all. unfold MetadataCache.setAndSave, MetadataCache.saveThrottled.
    cbn [MetadataCache.lastCall MetadataCache.cache].
    destruct (Z.ltb_spec (now - MetadataCache.lastCall m) 1000) as [Hlt|_]; [lia|].
    cbn [MetadataCache.cache]. rewrite CacheFacts.mapSet_fresh by exact Hfresh.
    unfold MetadataCache.save. destruct out; [reflexivity|congruence|reflexivity]. }
  rewrite Hm'. split; [now apply CacheFacts.prune_within|].
  split; [intros Hle; now apply CacheFacts.prune_below|].
  split; [intros Hlt; now apply CacheFacts.prune_above|].
  destruct (Z.lt_ge_cases MetadataCache.CACHE_MAX_SIZE (MetadataCache.size all)) as [Hlt|Hge].
  - destruct (CacheFacts.prune_above all Hall Hlt) as [-> _].
    subst all. rewrite CacheFacts.drop_snoc.
    + apply CacheFacts.mapGet_last. rewrite CacheFacts.keys_drop.
      intros Hin. apply Hfresh. eapply subseteq_drop. exact Hin.
    + rewrite length_app. cbn [length]. lia.
  - rewrite CacheFacts.prune_below by lia. subst all.
    now apply CacheFacts.mapGet_last.
Qed.

(** C7, a run: a second record saved two seconds after the first. *)
Lemma cache_prune_on_save_witness :
  let rec := MetadataCache.mkRecord None None None (Some 1700000002000%Z) None None in
  let all := MetadataCache.cache Sample.manager ++ [("http://h/photos/b.jpg", rec)] in
  let m' := MetadataCache.setAndSave "http://h/photos/b.jpg" rec
              1700000002000 MetadataCache.Stored Sample.manager in
  (MetadataCache.size (MetadataCache.cache m') <= MetadataCache.CACHE_MAX_SIZE)%Z
  /\ ((MetadataCache.size all <= MetadataCache.CACHE_MAX_SIZE)%Z ->
      MetadataCache.cache m' = all)
  /\ ((MetadataCache.CACHE_MAX_SIZE < MetadataCache.size all)%Z ->
      MetadataCache.cache m' = drop (length all - Z.to_nat 8000) all
      /\ MetadataCache.size (MetadataCache.cache m') = 8000%Z)
  /\ MetadataCache.mapGet "http://h/photos/b.jpg" (MetadataCache.cache m') = Some rec.
Proof.
  apply (cache_prune_on_save Sample.manager "http://h/photos/b.jpg"
           (MetadataCache.mkRecord None None None (Some 1700000002000%Z) None None)
           1700000002000 MetadataCache.Stored).
  - apply NoDup_singleton.
  - apply not_elem_of_cons. split; [discriminate|apply not_elem_of_nil].
  - vm_compute. discriminate.
  - discriminate.
Defined.

(** A save that hits the storage quota empties the cache. *)
Lemma save_quota (c : MetadataCache.JsMap) :
  MetadataCache.save MetadataCache.QuotaExceededError c = [].
Proof. reflexivity. Qed.

(** ** Preference helpers *)

(** C8: with either backing store, [getPref] after [setPref] of a string
    returns that string, whatever the default, and [getPref] of a key with
    no stored value returns the default. *)
Theorem prefs_roundtrip :
  (forall (st : Prefs.GMStore) (key v : string) (def : Prefs.JsVal),
     Prefs.getPref (Prefs.setPref st key (Prefs.JStr v)) key def = Prefs.JStr v)
  /\ (forall (st : Prefs.LocalStorage) (key v : string) (def : Prefs.JsVal),
        Prefs.getPref (Prefs.setPref st key (Prefs.JStr v)) key def = Prefs.JStr v)
  /\ (forall (st : Prefs.GMStore) (key : string) (def : Prefs.JsVal),
        st !! key = None -> Prefs.getPref st key def = def)
  /\ (forall (st : Prefs.LocalStorage) (key : string) (def : Prefs.JsVal),
        st !! key = None -> Prefs.getPref st key def = def).
Proof.
  unfold Prefs.getPref, Prefs.setPref.
  repeat split.
  - intros st key v def.
    unfold Prefs.storageGet, Prefs.storageSet, Prefs.GM_storage.
    now rewrite lookup_insert_eq.
  - intros st key v def.
    unfold Prefs.storageGet, Prefs.storageSet, Prefs.local_storage, Prefs.toString.
    now rewrite lookup_insert_eq.
  - intros st key def Hnone.
    unfold Prefs.storageGet, Prefs.GM_storage. now rewrite Hnone.
  - intros st key def Hnone.
    unfold Prefs.storageGet, Prefs.local_storage. now rewrite Hnone.
Qed.

(** C8, a run: nothing is stored for the view mode in a new store of either
    kind, so the default is returned. *)
Lemma prefs_roundtrip_witness :
  Prefs.getPref (∅ : Prefs.GMStore) "ntb:view" (Prefs.JStr "grid") = Prefs.JStr "grid"
  /\ Prefs.getPref (∅ : Prefs.LocalStorage) "ntb:view" (Prefs.JStr "grid") = Prefs.JStr "grid".
Proof.
  split.
  - apply (proj1 (proj2 (proj2 prefs_roundtrip)) ∅ "ntb:view" (Prefs.JStr "grid")).
    reflexivity.
  - apply (proj2 (proj2 (proj2 prefs_roundtrip)) ∅ "ntb:view" (Prefs.JStr "grid")).
    reflexivity.
Defined.

(** [localStorage] keeps the text of a value: a number written comes back as
    a string. *)
Example localStorage_number :
  Prefs.getPref (Prefs.setPref (∅ : Prefs.LocalStorage) "ntb:maxitems" (Prefs.JNum 12000))
                "ntb:maxitems" (Prefs.JNum 100)
  = Prefs.JStr "12000".
Proof. vm_compute. reflexivity. Qed.

Example prefs_view_list :
  Prefs.getPref (Prefs.setPref (∅ : Prefs.LocalStorage) "ntb:view" (Prefs.JStr "list"))
                "ntb:view" (Prefs.JStr "grid")
  = Prefs.JStr "list".
Proof. vm_compute. reflexivity. Qed.

(** ** Build script *)





(** A fragment that cannot be read ends the build before anything is
    written, whatever the write would have done. *)
Lemma build_missing_fragment (w : Build.WriteOutcome) (fs : Build.FS) (f : string) :
  f ∈ Build.files -> fs !! f = None -> Build.build w fs = (fs, Build.Uncaught).
Proof.
  intros Hf Hnone. unfold Build.build, Build.output.
  assert (Build.readAll fs Build.files = None) as ->; [|reflexivity].
  induction Build.files as [|f' fl IH]; [inversion Hf|].
  cbn [Build.readAll]. unfold Build.readFileSync.
  apply elem_of_cons in Hf as [<-|Hf]; [now rewrite Hnone|].
  destruct (fs !! f'); [|reflexivity]. now rewrite IH.
Qed.

(** ** Shuffle *)

Section ShuffleFacts.

Variable V : Type.
Variable undefined : V.
Variable RNG : Type.
Variable random : RNG -> Q * RNG.

(** [Math.random] returns a number in the interval from 0 (included) to 1
    (excluded). *)
Hypothesis random_range : forall g, (0 <= fst (random g) < 1)%Q.

Lemma pick_le (r : Q) (i : Datatypes.nat) : (r < 1)%Q -> (Shuffle.pick r i <= i)%nat.
Proof.
  intros Hr. unfold Shuffle.pick.
  assert (Qfloor (r * inject_Z (Z.of_nat i + 1)) < Z.of_nat i + 1)%Z; [|lia].
  rewrite Zlt_Qlt. eapply Qle_lt_trans; [apply Qfloor_le|].
  assert (0 < inject_Z (Z.of_nat i + 1))%Q as Hpos.
  { change 0%Q with (inject_Z 0). rewrite <- Zlt_Qlt. lia. }
  apply Qlt_le_trans with (1 * inject_Z (Z.of_nat i + 1))%Q.
  - now apply Qmult_lt_compat_r.
  - rewrite Qmult_1_l. apply Qle_refl.
Qed.

Lemma aget_lookup (a : list V) (i : Datatypes.nat) (v : V) :
  a !! i = Some v -> Shuffle.aget V undefined a i = v.
Proof. unfold Shuffle.aget. now intros ->. Qed.

Lemma aset_insert (a : list V) (i : Datatypes.nat) (v : V) :
  (i < length a)%nat -> Shuffle.aset V undefined a i v = <[i := v]> a.
Proof.
  intros Hi. unfold Shuffle.aset.
  destruct (Nat.ltb_spec i (length a)); [reflexivity|lia].
Qed.

Lemma insert_head_perm (t : list V) (j : Datatypes.nat) (u v : V) :
  t !! j = Some v -> v :: <[j := u]> t ≡ₚ u :: t.
Proof.
  revert j. induction t as [|h t IH]; intros [|j] H; try discriminate.
  - injection H as ->. apply perm_swap.
  - cbn in H. cbn [list_insert insert]. change (<[S j := u]> (h :: t)) with (h :: <[j := u]> t).
    rewrite perm_swap. rewrite (IH j H). apply perm_swap.
Qed.

(** Exchanging two elements of an array permutes it. *)
Lemma swap_perm (a : list V) (i j : Datatypes.nat) (u v : V) :
  a !! i = Some u -> a !! j = Some v ->
  <[j := u]> (<[i := v]> a) ≡ₚ a.
Proof.
  revert i j. induction a as [|h t IH]; intros [|i] [|j] Hi Hj; try discriminate.
  - injection Hi as ->. injection Hj as ->. reflexivity.
  - injection Hi as ->. cbn in Hj.
    change (<[S j := u]> (<[0%nat := v]> (u :: t))) with (v :: <[j := u]> t).
    now apply insert_head_perm.
  - injection Hj as ->. cbn in Hi.
    change (<[0%nat := u]> (<[S i := v]> (v :: t))) with (u :: <[i := v]> t).
    now apply insert_head_perm.
  - cbn in Hi, Hj.
    change (<[S j := u]> (<[S i := v]> (h :: t))) with (h :: <[j := u]> (<[i := v]> t)).
    apply perm_skip. now apply IH.
Qed.

(** The loop entered with an index inside the array permutes the array. *)
Lemma loop_perm (i : Datatypes.nat) (a : list V) (g : RNG) :
  (i < length a)%nat \/ i = O ->
  fst (Shuffle.loop V undefined RNG random i a g) ≡ₚ a.
Proof.
  revert a g. induction i as [|i IH]; intros a g Hi; [reflexivity|].
  destruct Hi as [Hi|Hi]; [|discriminate].
  cbn [Shuffle.loop]. pose proof (random_range g) as Hr.
  destruct (random g) as [r g']. cbn [fst] in Hr.
  pose proof (pick_le r (S i) (proj2 Hr)) as Hj.
  set (j := Shuffle.pick r (S i)) in *.
  destruct (lookup_lt_is_Some_2 a (S i) Hi) as [u Hu].
  destruct (lookup_lt_is_Some_2 a j ltac:(lia)) as [v Hv].
  rewrite (aget_lookup a (S i) u Hu), (aget_lookup a j v Hv).
  rewrite (aset_insert a (S i) v Hi).
  rewrite aset_insert by (rewrite length_insert; lia).
  rewrite IH.
  - now apply swap_perm.
  - left. rewrite !length_insert. lia.
Qed.

End ShuffleFacts.

Lemma lcg_range (g : Z) : (0 <= fst (Shuffle.lcg g) < 1)%Q.
Proof.
  unfold Shuffle.lcg. cbn [fst].
  pose proof (Z.mod_pos_bound g 1000 ltac:(lia)) as H.
  unfold Qle, Qlt. cbn. lia.
Qed.

(** C10: [shuffle] called on an array of the heap returns a reference to a
    new array, not allocated before, whose elements are a permutation of
    those of the argument (so of the same length); the argument and every
    other array of the heap are left as they were. *)
Theorem shuffle_permutes
    (V : Type) (undefined : V) (RNG : Type) (random : RNG -> Q * RNG)
    (array : positive) (σ : gmap positive (list V)) (g : RNG) (elems : list V) :
  (forall g, (0 <= fst (random g) < 1)%Q) ->
  σ !! array = Some elems ->
  exists (a : positive) (elems' : list V) (g' : RNG),
    Shuffle.shuffle V undefined RNG random array σ g = Some (a, <[a := elems']> σ, g')
    /\ σ !! a = None
    /\ elems' ≡ₚ elems
    /\ length elems' = length elems
    /\ <[a := elems']> σ !! array = Some elems
    /\ (forall l, l <> a -> <[a := elems']> σ !! l = σ !! l).
Proof.
  intros Hrange Hσ. unfold Shuffle.shuffle. rewrite Hσ.
  pose proof (loop_perm V undefined RNG random Hrange (length elems - 1) elems g) as Hp.
  destruct (Shuffle.loop V undefined RNG random (length elems - 1) elems g) as [elems' g'].
  cbn [fst] in Hp.
  assert (Hperm : elems' ≡ₚ elems) by (apply Hp; lia).
  assert (Hfresh : σ !! fresh (dom σ) = None).
  { apply not_elem_of_dom. apply is_fresh. }
  exists (fresh (dom σ)), elems', g'. split; [reflexivity|].
  split; [exact Hfresh|]. split; [exact Hperm|].
  split; [now rewrite Hperm|].
  split.
  - rewrite lookup_insert_ne; [exact Hσ|]. intros Heq. rewrite Heq in Hfresh. congruence.
  - intros l Hl. now rewrite lookup_insert_ne.
Qed.

(** C10, a run on the sample heap with the congruential generator. *)
Lemma shuffle_permutes_witness :
  exists (a : positive) (elems' : list Z) (g' : Z),
    Shuffle.shuffle Z 0%Z Z Shuffle.lcg 1%positive Sample.heap 42%Z
      = Some (a, <[a := elems']> Sample.heap, g')
    /\ Sample.heap !! a = None
    /\ elems' ≡ₚ [10; 20; 30; 40]%Z
    /\ length elems' = length [10; 20; 30; 40]%Z
    /\ <[a := elems']> Sample.heap !! 1%positive = Some [10; 20; 30; 40]%Z
    /\ (forall l, l <> a -> <[a := elems']> Sample.heap !! l = Sample.heap !! l).
Proof.
  apply (shuffle_permutes Z 0%Z Z Shuffle.lcg 1%positive Sample.heap 42%Z [10; 20; 30; 40]%Z).
  - exact lcg_range.
  - reflexivity.
Defined.

(** * Further properties *)

(** ** Listing parser: where entries come from *)

(** What the loop body guarantees about an entry it builds. *)
Lemma produced_shape
    (resolveURL : string -> string -> option string)
    (decodeURIComponent : string -> option string)
    (baseUrl : string) (a : Anchor) (e : Entry) :
  produced resolveURL decodeURIComponent baseUrl a = Some e ->
  isSelfOrParent (hrefOf a) = false
  /\ isFunctionalLink a = true
  /\ name e <> ""
  /\ url e = abs resolveURL (hrefOf a) baseUrl
  /\ match kind e with
     | KDir => isDirHref (hrefOf a) = true
               /\ type e = Some (getFolderType (name e)) /\ ext e = None
               /\ meta e = noMeta
     | KImg => isDirHref (hrefOf a) = false /\ isImgHref (hrefOf a) = true
               /\ type e = None /\ ext e = Some (getExt (url e))
               /\ meta e = rowMeta a
     | KFile => isDirHref (hrefOf a) = false /\ isImgHref (hrefOf a) = false
                /\ isFileHref (hrefOf a) = true
                /\ type e = None /\ ext e = Some (getExt (url e))
                /\ meta e = rowMeta a
     end.
Proof.
  unfold produced.
  destruct (isSelfOrParent (hrefOf a)); [discriminate|].
  destruct (isFunctionalLink a); [|discriminate]. cbn [negb].
  destruct (rawName decodeURIComponent a _) as [s|]; [|discriminate].
  destruct (Str.isEmpty (cleanName s)) eqn:Hn; [discriminate|].
  assert (cleanName s <> "") as Hne by (intros Heq; rewrite Heq in Hn; discriminate).
  destruct (isDirHref (hrefOf a)); [intros [= <-]; cbn; auto 10|].
  destruct (isImgHref (hrefOf a)); [intros [= <-]; cbn; auto 10|].
  destruct (isFileHref (hrefOf a)); [intros [= <-]; cbn; auto 10|discriminate].
Qed.

(** Every returned entry was built from an anchor the loop walked, and sits
    in the list of its kind. *)
Lemma parseIndex_entry_origin
    (resolveURL : string -> string -> option string)
    (decodeURIComponent : string -> option string)
    (nat : string -> string -> Z) (MAX_ITEMS_PAGE : Z)
    (doc : Document) (baseUrl : string) (r : Buckets) (k : Kind) (e : Entry) :
  parseIndex resolveURL decodeURIComponent nat MAX_ITEMS_PAGE doc baseUrl = Some r ->
  e ∈ bucket k r ->
  kind e = k
  /\ exists a, a ∈ pickAnchors SELECTORS doc []
               /\ produced resolveURL decodeURIComponent baseUrl a = Some e.
Proof.
  intros H He.
  destruct (parseIndex_buckets _ _ _ _ _ _ _ H) as [b [Hb Hr]].
  destruct (parseLoop_prefix _ _ _ _ _ _ _ Hb) as [n Hn].
  rewrite Hr, (sortByName_perm nat) in He.
  apply uniqFrom_elem in He as [He _].
  rewrite Hn in He. replace (bucket k (mkBuckets [] [] [])) with (@nil Entry) in He
    by (destruct k; reflexivity).
  cbn [app] in He. apply elem_of_ofKind in He as [He Hk]. split; [exact Hk|].
  apply subseteq_take in He. apply list_elem_of_omap in He as [a [Ha Hp]].
  exists a. split; assumption.
Qed.

(** X1: the entries come from the anchors of the first selector that finds
    any: when some anchor with an [href] is inside a [pre], every entry
    comes from an anchor inside a [pre]; when none is but one is inside a
    table, every entry comes from an anchor inside a table. *)
Theorem parseIndex_selector_priority
    (resolveURL : string -> string -> option string)
    (decodeURIComponent : string -> option string)
    (nat : string -> string -> Z) (MAX_ITEMS_PAGE : Z)
    (doc : Document) (baseUrl : string) (r : Buckets) (k : Kind) (e : Entry) :
  parseIndex resolveURL decodeURIComponent nat MAX_ITEMS_PAGE doc baseUrl = Some r ->
  e ∈ bucket k r ->
  exists a,
    a ∈ anchors doc /\ hasHrefAttr a = true
    /\ produced resolveURL decodeURIComponent baseUrl a = Some e
    /\ (forall a', a' ∈ anchors doc -> hasHrefAttr a' = true -> inPre a' = true ->
        inPre a = true)
    /\ ((forall a', a' ∈ anchors doc -> hasHrefAttr a' = true -> inPre a' = false) ->
        forall a', a' ∈ anchors doc -> hasHrefAttr a' = true -> inTable a' = true ->
        inTable a = true).
Proof.
  intros H He.
  destruct (parseIndex_entry_origin _ _ _ _ _ _ _ _ _ H He) as [_ [a [Ha Hp]]].
  exists a.
  destruct (pickAnchors_cases doc) as [[Hne Hpick]|[[Hnil [Hne Hpick]]|[Hnil [Hnil' Hpick]]]];
    rewrite Hpick in Ha; apply elem_of_select in Ha as (Hin & Hattr & Hsel).
  - repeat split; auto. intros Hno a' Ha' Hh' Ht'.
    rewrite (Hno a Hin Hattr) in Hsel. discriminate.
  - repeat split; auto. intros a' Ha' Hh' Hp'. exfalso.
    apply (select_nil PreAnchors doc a' Hnil). apply elem_of_select. auto.
  - repeat split; auto.
    + intros a' Ha' Hh' Hp'. exfalso.
      apply (select_nil PreAnchors doc a' Hnil). apply elem_of_select. auto.
    + intros _ a' Ha' Hh' Ht'. exfalso.
      apply (select_nil TableAnchors doc a' Hnil'). apply elem_of_select. auto.
Qed.

(** X2: every returned entry has a name that is not empty and was built
    from a functional anchor whose [href] is none of the empty string,
    [../], [./] and [/]. A directory entry comes from an [href] that
    [isDirHref] accepts (its part before the first [#], cut again at the
    first [?], ends with a slash: ["sub/?C=N"] counts) and has the folder
    type of its name; an image entry from one that [isDirHref] rejects and
    [isImgHref] accepts; a file entry from one that both reject and
    [isFileHref] accepts; image and file entries carry the extension of
    their URL and the row metadata of their anchor. *)
Theorem parseIndex_entry_shape
    (resolveURL : string -> string -> option string)
    (decodeURIComponent : string -> option string)
    (nat : string -> string -> Z) (MAX_ITEMS_PAGE : Z)
    (doc : Document) (baseUrl : string) (r : Buckets) (k : Kind) (e : Entry) :
  parseIndex resolveURL decodeURIComponent nat MAX_ITEMS_PAGE doc baseUrl = Some r ->
  e ∈ bucket k r ->
  kind e = k /\ name e <> ""
  /\ exists a,
       a ∈ anchors doc
       /\ url e = abs resolveURL (hrefOf a) baseUrl
       /\ isFunctionalLink a = true
       /\ ~ In (hrefOf a) [""; "../"; "./"; "/"]
       /\ match k with
          | KDir => isDirHref (hrefOf a) = true
                    /\ type e = Some (getFolderType (name e)) /\ ext e = None
          | KImg => isDirHref (hrefOf a) = false /\ isImgHref (hrefOf a) = true
                    /\ ext e = Some (getExt (url e)) /\ meta e = rowMeta a
          | KFile => isDirHref (hrefOf a) = false /\ isImgHref (hrefOf a) = false
                     /\ isFileHref (hrefOf a) = true
                     /\ ext e = Some (getExt (url e)) /\ meta e = rowMeta a
          end.
Proof.
  intros H He.
  destruct (parseIndex_entry_origin _ _ _ _ _ _ _ _ _ H He) as [Hk [a [Ha Hp]]].
  destruct (produced_shape _ _ _ _ _ Hp) as (Hself & Hfun & Hname & Hurl & Hkind).
  split; [exact Hk|]. split; [exact Hname|]. exists a.
  assert (a ∈ anchors doc) as Hin.
  { destruct (pickAnchors_cases doc) as [[_ Hpick]|[[_ [_ Hpick]]|[_ [_ Hpick]]]];
      rewrite Hpick in Ha; apply elem_of_select in Ha; tauto. }
  split; [exact Hin|]. split; [exact Hurl|]. split; [exact Hfun|]. split.
  - unfold isSelfOrParent in Hself. rewrite !orb_false_iff in Hself.
    destruct Hself as [[[H1 H2] H3] H4].
    intros [Heq|[Heq|[Heq|[Heq|[]]]]]; rewrite <- Heq in *; discriminate.
  - rewrite Hk in Hkind. destruct k; tauto.
Qed.

(** X3: below the cap nothing is left out: when the anchors walked build
    fewer than [MAX_ITEMS_PAGE] entries, every entry the loop body builds
    has its URL in the returned list of its kind. *)
Theorem parseIndex_complete_below_cap
    (resolveURL : string -> string -> option string)
    (decodeURIComponent : string -> option string)
    (nat : string -> string -> Z) (MAX_ITEMS_PAGE : Z)
    (doc : Document) (baseUrl : string) (r : Buckets) (a : Anchor) (e : Entry) :
  (Z.of_nat (length (omap (produced resolveURL decodeURIComponent baseUrl)
                          (pickAnchors SELECTORS doc []))) < MAX_ITEMS_PAGE)%Z ->
  parseIndex resolveURL decodeURIComponent nat MAX_ITEMS_PAGE doc baseUrl = Some r ->
  a ∈ pickAnchors SELECTORS doc [] ->
  produced resolveURL decodeURIComponent baseUrl a = Some e ->
  exists e', e' ∈ bucket (kind e) r /\ url e' = url e.
Proof.
  intros Hlen H Ha Hp.
  assert (1 <= MAX_ITEMS_PAGE)%Z as Hmax by lia.
  rewrite (parseIndex_take _ _ _ _ _ _ _ Hmax H (kind e)).
  rewrite take_ge by lia.
  assert (e ∈ ofKind (kind e)
                (omap (produced resolveURL decodeURIComponent baseUrl)
                      (pickAnchors SELECTORS doc []))) as He.
  { apply elem_of_ofKind. split; [|reflexivity].
    apply list_elem_of_omap. exists a. split; assumption. }
  destruct (uniqFrom_complete ∅ _ _ He) as [e' [He' Hu]]; [apply not_elem_of_empty|].
  exists e'. split; [|exact Hu].
  rewrite (sortByName_perm nat). exact He'.
Qed.


(** ** Hrefs and extensions *)

Lemma startsWith_empty (s : string) : Str.startsWith s "" = true.
Proof. destruct s; reflexivity. Qed.

Lemma includes_char_cons (a c : ascii) (s : string) :
  Str.includes (String a s) (String c "")
  = Ascii.eqb c a || Str.includes s (String c "").
Proof. cbn [Str.includes Str.startsWith]. rewrite startsWith_empty, andb_true_r. reflexivity. Qed.

Lemma beforeChar_none (c : ascii) (p : string) :
  Str.includes p (String c "") = false -> Str.beforeChar c p = p.
Proof.
  induction p as [|a p IH]; [reflexivity|].
  rewrite includes_char_cons, orb_false_iff. intros [Ha Hp]. cbn [Str.beforeChar].
  rewrite Ascii.eqb_sym, Ha, (IH Hp). reflexivity.
Qed.

Lemma append_nil_l (s : string) : "" +:+ s = s.
Proof. reflexivity. Qed.

Lemma append_cons (a : ascii) (p q : string) : String a p +:+ q = String a (p +:+ q).
Proof. reflexivity. Qed.

Lemma beforeChar_app_hit (c : ascii) (p q : string) :
  Str.includes p (String c "") = false ->
  Str.beforeChar c (p +:+ String c q) = p.
Proof.
  induction p as [|a p IH]; rewrite ?append_nil_l, ?append_cons; cbn [Str.beforeChar].
  - intros _. rewrite Ascii.eqb_refl. reflexivity.
  - rewrite includes_char_cons, orb_false_iff. intros [Ha Hp].
    rewrite Ascii.eqb_sym, Ha, (IH Hp). reflexivity.
Qed.

Lemma beforeChar_app_miss (c d : ascii) (p q : string) :
  Str.includes p (String c "") = false -> Ascii.eqb d c = false ->
  Str.beforeChar c (p +:+ String d q) = p +:+ String d (Str.beforeChar c q).
Proof.
  intros Hp Hd. induction p as [|a p IH]; rewrite ?append_nil_l, ?append_cons; cbn [Str.beforeChar].
  - rewrite Hd. reflexivity.
  - rewrite includes_char_cons, orb_false_iff in Hp. destruct Hp as [Ha Hp].
    rewrite Ascii.eqb_sym, Ha, (IH Hp). reflexivity.
Qed.

(** X5: a query string does not change how an [href] is classified: for a
    path without [?] and [#], the path followed by [?] and any text is a
    directory, image or file [href] exactly when the path is. *)
Theorem href_query_ignored (p q : string) :
  Str.includes p "?" = false -> Str.includes p "#" = false ->
  isDirHref (p +:+ "?" +:+ q) = isDirHref p
  /\ isImgHref (p +:+ "?" +:+ q) = isImgHref p
  /\ isFileHref (p +:+ "?" +:+ q) = isFileHref p.
Proof.
  intros Hq Hh. unfold isDirHref, isImgHref, isFileHref.
  change ("?" +:+ q) with (String "?" q).
  rewrite (beforeChar_app_miss "#" "?" p q Hh eq_refl).
  rewrite !(beforeChar_app_hit "?" p _ Hq).
  rewrite (beforeChar_none "#" p Hh), (beforeChar_none "?" p Hq). auto.
Qed.

(** X6: an anchor whose [href] starts with [?], such as the column sort
    links of an Apache listing, never yields an entry. *)
Theorem sort_link_yields_no_entry
    (resolveURL : string -> string -> option string)
    (decodeURIComponent : string -> option string)
    (baseUrl : string) (a : Anchor) :
  Str.startsWith (hrefOf a) "?" = true ->
  produced resolveURL decodeURIComponent baseUrl a = None.
Proof.
  intros H. unfold produced.
  destruct (hrefOf a) as [|c q] eqn:Hhref; [discriminate|].
  cbn [Str.startsWith] in H. apply andb_true_iff in H as [Hc _].
  apply Ascii.eqb_eq in Hc. subst c.
  destruct (isSelfOrParent _); [reflexivity|].
  destruct (negb _); [reflexivity|].
  destruct (rawName _ _ _); [|reflexivity].
  destruct (Str.isEmpty _); [reflexivity|].
  assert (Str.beforeChar "?" (String "?" q) = "") as Hb by reflexivity.
  assert (isDirHref (String "?" q) = false) as ->.
  { unfold isDirHref. cbn [Str.beforeChar]. change (Ascii.eqb "?" "#") with false.
    cbn iota. cbn [Str.beforeChar]. rewrite Ascii.eqb_refl. reflexivity. }
  unfold isImgHref, isFileHref. rewrite Hb. reflexivity.
Qed.

Lemma afterLast_no_char (c : ascii) (s : string) :
  Str.includes (Str.afterLast c s) (String c "") = false.
Proof.
  induction s as [|a s IH]; [reflexivity|]. cbn [Str.afterLast].
  destruct (Str.includes s (String c "")) eqn:Hs; [exact IH|].
  destruct (Ascii.eqb a c) eqn:Ha; [exact Hs|].
  rewrite includes_char_cons, Ascii.eqb_sym, Ha, Hs. reflexivity.
Qed.

Lemma afterLast_keeps_absent (c d : ascii) (s : string) :
  Str.includes s (String d "") = false ->
  Str.includes (Str.afterLast c s) (String d "") = false.
Proof.
  induction s as [|a s IH]; [reflexivity|]. intros H. cbn [Str.afterLast].
  pose proof H as H'. rewrite includes_char_cons, orb_false_iff in H'.
  destruct H' as [_ Hs].
  destruct (Str.includes s (String c "")); [exact (IH Hs)|].
  destruct (Ascii.eqb a c); [exact Hs|exact H].
Qed.

Lemma lower_ascii_idem (c : ascii) :
  Str.lower_ascii (Str.lower_ascii c) = Str.lower_ascii c.
Proof. destruct c as [[] [] [] [] [] [] [] []]; reflexivity. Qed.

Lemma lower_ascii_dot (c : ascii) :
  Ascii.eqb "." (Str.lower_ascii c) = Ascii.eqb "." c.
Proof. destruct c as [[] [] [] [] [] [] [] []]; reflexivity. Qed.

Lemma lower_ascii_slash (c : ascii) :
  Ascii.eqb "/" (Str.lower_ascii c) = Ascii.eqb "/" c.
Proof. destruct c as [[] [] [] [] [] [] [] []]; reflexivity. Qed.

Lemma toLowerCase_app (s t : string) :
  Str.toLowerCase (s +:+ t) = Str.toLowerCase s +:+ Str.toLowerCase t.
Proof.
  induction s as [|a s IH]; [reflexivity|].
  rewrite append_cons. cbn [Str.toLowerCase]. rewrite append_cons, IH. reflexivity.
Qed.

Lemma toLowerCase_idem (s : string) :
  Str.toLowerCase (Str.toLowerCase s) = Str.toLowerCase s.
Proof.
  induction s as [|a s IH]; [reflexivity|].
  cbn [Str.toLowerCase]. rewrite lower_ascii_idem, IH. reflexivity.
Qed.

Lemma includes_lower_dot (s : string) :
  Str.includes (Str.toLowerCase s) "." = Str.includes s ".".
Proof.
  induction s as [|a s IH]; [reflexivity|]. cbn [Str.toLowerCase].
  rewrite !includes_char_cons, lower_ascii_dot, IH. reflexivity.
Qed.

Lemma includes_lower_slash (s : string) :
  Str.includes (Str.toLowerCase s) "/" = Str.includes s "/".
Proof.
  induction s as [|a s IH]; [reflexivity|]. cbn [Str.toLowerCase].
  rewrite !includes_char_cons, lower_ascii_slash, IH. reflexivity.
Qed.

Lemma afterLast_suffix (c : ascii) (s : string) :
  exists pre, s = pre +:+ Str.afterLast c s.
Proof.
  induction s as [|a s [pre IH]]; [exists ""; reflexivity|]. cbn [Str.afterLast].
  destruct (Str.includes s (String c "")).
  - exists (String a pre). rewrite append_cons, <- IH. reflexivity.
  - destruct (Ascii.eqb a c); [exists (String a ""); reflexivity|exists ""; reflexivity].
Qed.

Lemma afterLast_split (c : ascii) (s : string) :
  Str.includes s (String c "") = true ->
  exists pre, s = pre +:+ String c (Str.afterLast c s).
Proof.
  induction s as [|a s IH]; [discriminate|].
  rewrite includes_char_cons. cbn [Str.afterLast]. intros H.
  destruct (Str.includes s (String c "")) eqn:Hs.
  - destruct (IH eq_refl) as [pre Hpre]. exists (String a pre).
    rewrite append_cons, <- Hpre. reflexivity.
  - rewrite orb_false_r in H. rewrite Ascii.eqb_sym, H.
    apply Ascii.eqb_eq in H. subst a. exists "". reflexivity.
Qed.

Lemma append_assoc (s t u : string) : (s +:+ t) +:+ u = s +:+ (t +:+ u).
Proof.
  induction s as [|a s IH]; [reflexivity|]. rewrite !append_cons, IH. reflexivity.
Qed.

(** X7: the extension [getExt] returns holds no dot and no slash and is in
    lower case; when the last path segment of the URL has a dot, the URL in
    lower case ends with a dot followed by that extension, and otherwise the
    extension is empty. *)
Theorem getExt_shape (url : string) :
  Str.includes (getExt url) "." = false
  /\ Str.includes (getExt url) "/" = false
  /\ Str.toLowerCase (getExt url) = getExt url
  /\ if Str.includes (Str.afterLast "/" url) "."
     then exists pre, Str.toLowerCase url = pre +:+ "." +:+ getExt url
     else getExt url = "".
Proof.
  unfold getExt.
  destruct (Str.includes (Str.afterLast "/" url) ".") eqn:Hdot; [|auto].
  split; [rewrite includes_lower_dot; apply afterLast_no_char|].
  split; [rewrite includes_lower_slash; apply afterLast_keeps_absent, afterLast_no_char|].
  split; [apply toLowerCase_idem|].
  destruct (afterLast_suffix "/" url) as [p Hp].
  destruct (afterLast_split "." _ Hdot) as [q Hq].
  exists (Str.toLowerCase (p +:+ q)).
  rewrite Hp at 1. rewrite Hq at 1.
  rewrite <- append_assoc, !toLowerCase_app. reflexivity.
Qed.

(** ** Detector variants *)

(** X8: the three detectors kept in the repository are nested: a page the
    detector of [src/dom.js] accepts is accepted by the detector of
    [NiceThumbsBuddy.user.js], a page that one accepts is accepted by the
    detector of [soulful-thumbs], and all three demand three functional
    anchors; both inclusions are strict. *)
Theorem looksLikeAutoIndex_variants_nested :
  (forall doc, Variants.looksLikeAutoIndex_dom doc = true ->
               looksLikeAutoIndex doc = true)
  /\ (forall doc, looksLikeAutoIndex doc = true ->
                  Variants.looksLikeAutoIndex_soulful doc = true)
  /\ (forall doc, Variants.looksLikeAutoIndex_soulful doc = true ->
                  (3 <= length (fileish doc))%nat)
  /\ (exists doc, looksLikeAutoIndex doc = true
                  /\ Variants.looksLikeAutoIndex_dom doc = false)
  /\ (exists doc, Variants.looksLikeAutoIndex_soulful doc = true
                  /\ looksLikeAutoIndex doc = false).
Proof.
  split; [intros doc H; apply (looksLikeAutoIndex_dom_sound doc H)|].
  split; [exact looksLikeAutoIndex_soulful_complete|].
  split.
  - intros doc. unfold Variants.looksLikeAutoIndex_soulful.
    rewrite andb_true_iff, Nat.leb_le. tauto.
  - split; [exists Sample.apachePre|exists Sample.plainPre]; split; vm_compute; reflexivity.
Qed.

(** ** Folder types by substring search *)

Lemma matchPrefix_Void (s : string) : Re.matchPrefix Re.Void s = false.
Proof. induction s as [|c s IH]; [reflexivity|exact IH]. Qed.

Lemma matchPrefix_Eps (s : string) : Re.matchPrefix Re.Eps s = true.
Proof. destruct s; reflexivity. Qed.

Lemma cat_Eps (r : Re.regex) : Re.cat Re.Eps r = r.
Proof. destruct r; reflexivity. Qed.

Lemma matchPrefix_alt (x : string) (r s : Re.regex) :
  Re.matchPrefix (Re.alt r s) x = Re.matchPrefix r x || Re.matchPrefix s x.
Proof.
  revert r s. induction x as [|c x IH]; intros r s.
  - destruct r, s; cbn; rewrite ?orb_false_r, ?orb_true_r; reflexivity.
  - assert (Re.matchPrefix (Re.Alt r s) (String c x)
            = Re.matchPrefix r (String c x) || Re.matchPrefix s (String c x)) as HAlt.
    { cbn [Re.matchPrefix Re.nullable Re.deriv]. rewrite IH.
      destruct (Re.nullable r), (Re.nullable s); cbn [orb];
        rewrite ?orb_true_r; reflexivity. }
    destruct r;
      try (cbn [Re.alt]; rewrite (matchPrefix_Void (String c x)); reflexivity);
      destruct s;
      try (cbn [Re.alt]; rewrite (matchPrefix_Void (String c x)), orb_false_r; reflexivity);
      exact HAlt.
Qed.

Lemma matchPrefix_Alt (x : string) (r s : Re.regex) :
  Re.matchPrefix (Re.Alt r s) x = Re.matchPrefix r x || Re.matchPrefix s x.
Proof.
  destruct x as [|c x].
  - cbn. rewrite !orb_false_r. reflexivity.
  - cbn [Re.matchPrefix Re.nullable Re.deriv]. rewrite matchPrefix_alt.
    destruct (Re.nullable r), (Re.nullable s); cbn [orb]; rewrite ?orb_true_r; reflexivity.
Qed.

Lemma matchPrefix_alts (rs : list Re.regex) (x : string) :
  Re.matchPrefix (Re.alts rs) x = existsb (fun r => Re.matchPrefix r x) rs.
Proof.
  induction rs as [|r rs IH]; [apply matchPrefix_Void|].
  destruct rs as [|r' rs].
  - cbn [Re.alts existsb]. rewrite orb_false_r. reflexivity.
  - change (Re.alts (r :: r' :: rs)) with (Re.Alt r (Re.alts (r' :: rs))).
    rewrite matchPrefix_Alt, IH. reflexivity.
Qed.

Lemma matchPrefix_litI (w x : string) :
  Re.matchPrefix (Re.litI w) x = startsWithI x w.
Proof.
  revert x. induction w as [|c w IH]; intros x;
    [destruct x; reflexivity|].
  destruct w as [|c' w].
  - destruct x as [|b x]; [reflexivity|].
    cbn [Re.litI Re.chrI Re.matchPrefix Re.nullable Re.deriv startsWithI orb].
    destruct (Ascii.eqb _ _); cbn [andb];
      [rewrite matchPrefix_Eps; destruct x; reflexivity|apply matchPrefix_Void].
  - change (Re.litI (String c (String c' w)))
      with (Re.Cat (Re.chrI c) (Re.litI (String c' w))).
    destruct x as [|b x]; [reflexivity|].
    cbn [Re.chrI Re.matchPrefix Re.nullable Re.deriv startsWithI orb andb].
    destruct (Ascii.eqb _ _); cbn [andb].
    + rewrite cat_Eps. apply IH.
    + apply matchPrefix_Void.
Qed.

Lemma startsWithI_lower (s w : string) :
  startsWithI (Str.toLowerCase s) w = startsWithI s w.
Proof.
  revert s. induction w as [|c w IH]; intros s; [destruct s; reflexivity|].
  destruct s as [|b s]; [reflexivity|].
  cbn [Str.toLowerCase startsWithI]. rewrite lower_ascii_idem, IH. reflexivity.
Qed.

Lemma includesI_lower (s w : string) :
  includesI (Str.toLowerCase s) w = includesI s w.
Proof.
  induction s as [|b s IH].
  - reflexivity.
  - change (Str.toLowerCase (String b s))
      with (String (Str.lower_ascii b) (Str.toLowerCase s)).
    cbn [includesI]. rewrite IH.
    change (String (Str.lower_ascii b) (Str.toLowerCase s))
      with (Str.toLowerCase (String b s)).
    rewrite startsWithI_lower. reflexivity.
Qed.

Lemma existsb_cons {A : Type} (f : A -> bool) (a : A) (l : list A) :
  existsb f (a :: l) = f a || existsb f l.
Proof. reflexivity. Qed.

Lemma includesI_cons (b : ascii) (s w : string) :
  includesI (String b s) w = startsWithI (String b s) w || includesI s w.
Proof. reflexivity. Qed.

Lemma test_wordsI (ws : list string) (s : string) :
  Re.test (Re.wordsI ws) s = existsb (includesI s) ws.
Proof.
  unfold Re.test, Re.wordsI. induction s as [|b s IH].
  - cbn [Re.anywhere]. rewrite matchPrefix_alts, orb_false_r.
    induction ws as [|w ws IHw]; [reflexivity|].
    cbn [map]. rewrite !existsb_cons, matchPrefix_litI, IHw.
    cbn [includesI]. rewrite orb_false_r. reflexivity.
  - cbn [Re.anywhere]. rewrite IH, matchPrefix_alts. clear IH.
    induction ws as [|w ws IHw]; [reflexivity|].
    cbn [map]. rewrite !existsb_cons, matchPrefix_litI, <- IHw, includesI_cons.
    destruct (startsWithI (String b s) w), (includesI s w); cbn [orb];
      rewrite ?orb_true_r; reflexivity.
Qed.

Lemma existsb_includesI_lower (name : string) (ws : list string) :
  existsb (includesI (Str.toLowerCase name)) ws = existsb (includesI name) ws.
Proof.
  induction ws as [|w ws IH]; [reflexivity|].
  rewrite !existsb_cons, includesI_lower, IH. reflexivity.
Qed.

(** X9: the folder type of a name is the type of the first of the five word
    lists that has a word occurring in the name, compared without regard to
    ASCII case, and [default] when no list has one: the regular expressions
    of [getFolderType] search for substrings and nothing else. *)
Theorem getFolderType_by_substring (name : string) :
  getFolderType name =
  match List.find (fun tw => existsb (includesI name) (snd tw)) folderWords with
  | Some tw => fst tw
  | None => default
  end.
Proof.
  unfold getFolderType, videoTerms, audioTerms, photoTerms, archiveTerms, documentTerms.
  rewrite !test_wordsI. unfold folderWords. cbn [List.find snd fst].
  rewrite !existsb_includesI_lower.
  repeat match goal with
         | |- context [if existsb ?f ?l then _ else _] => destruct (existsb f l)
         end; reflexivity.
Qed.

(** ** Lightbox: unclamped buttons, invariants *)

Module LightboxMore.

Import Lightbox.
Local Open Scope Q_scope.

Lemma fold_dragMove_keeps (r : Wrap) (cx cy : Q) (ds : list Drag) (s : State) :
  let s' := fold_left (dragMove r cx cy) ds s in
  z s' = z s /\ min s' = min s /\ max s' = max s /\ w s' = w s /\ h s' = h s.
Proof.
  revert s. induction ds as [|d ds IH]; intros s; [cbn; auto|].
  cbn [fold_left]. destruct (IH (dragMove r cx cy s d)) as (H1 & H2 & H3 & H4 & H5).
  cbv zeta. rewrite H1, H2, H3, H4, H5. cbn. auto.
Qed.

Lemma orElse_nonzero (n d : Q) : ~ d == 0 -> ~ orElse n d == 0.
Proof.
  intros Hd. unfold orElse. destruct (Qeq_bool n 0) eqn:Hn; [exact Hd|].
  apply Qeq_bool_neq. exact Hn.
Qed.

Lemma step_opened (r : Wrap) (ev : Event) (b : Box) :
  opened (st b) \/ (exists nw nh, ev = Opened nw nh) ->
  opened (st (step r ev b)).
Proof.
  intros H.
  destruct ev as [nw nh| | | d c m px py | | cx cy | | [] |].
  1: { cbn [step withSt st]. split; cbn [w h]; apply orElse_nonzero; discriminate. }
  all: destruct H as [H|[nw [nh Hev]]]; [|discriminate].
  all: try exact H.
  - cbn [step]. destruct (negb _); exact H.
  - cbn [step withSt st]. unfold opened.
    destruct (fold_dragMove_keeps r cx cy (drags b) (st b)) as (_ & _ & _ & Hw & Hh).
    cbv zeta in Hw, Hh. rewrite Hw, Hh. exact H.
Qed.

Lemma run_app (evs evs' : list (Wrap * Event)) (b : Box) :
  run (evs ++ evs') b = run evs' (run evs b).
Proof. unfold run. apply fold_left_app. Qed.

Lemma run_opened (evs : list (Wrap * Event)) (b : Box) :
  opened (st b) -> opened (st (run evs b)).
Proof.
  revert b. induction evs as [|[r ev] evs IH]; intros b H; [exact H|].
  unfold run. cbn [fold_left fst snd]. apply IH. apply step_opened. left. exact H.
Qed.

Lemma run_bounds_ok (evs : list (Wrap * Event)) (b : Box) :
  bounds_ok (st b) -> bounds_ok (st (run evs b)).
Proof.
  revert b. induction evs as [|[r ev] evs IH]; intros b H; [exact H|].
  unfold run. cbn [fold_left fst snd]. apply IH.
  apply LightboxFacts.step_bounds_ok. exact H.
Qed.

Lemma step_no_drag (r : Wrap) (ev : Event) (b : Box) :
  noPointerDown ev -> drags b = [] -> drags (step r ev b) = [].
Proof.
  intros Hev Hd.
  destruct ev as [nw nh| | | d c m px py | | cx cy | | [] |];
    try exact Hd; try reflexivity; try contradiction.
  cbn [step]. destruct (negb _); exact Hd.
Qed.

Lemma run_no_drag (evs : list (Wrap * Event)) (b : Box) :
  Forall (fun re => noPointerDown (snd re)) evs ->
  drags b = [] -> drags (run evs b) = [].
Proof.
  revert b. induction evs as [|[r ev] evs IH]; intros b Hall Hd; [exact Hd|].
  inversion Hall as [|? ? Hev Hall']; subst.
  unfold run. cbn [fold_left fst snd]. apply IH; [exact Hall'|].
  apply step_no_drag; assumption.
Qed.

End LightboxMore.

(** X11: the Fit and Fill buttons set the scale without clamping it and
    centre the image: Fit on an image more than twice as wide as the
    viewport gives a scale below 0.5, Fill on an image less than a sixth as
    wide as the viewport gives a scale above 6. *)
Theorem lightbox_fit_fill_unclamped (r : Lightbox.Wrap) (b : Lightbox.Box) :
  (0 < Lightbox.w (Lightbox.st b))%Q -> (0 < Lightbox.h (Lightbox.st b))%Q ->
  let fit := Lightbox.st (Lightbox.step r (Lightbox.Click Lightbox.Fit) b) in
  let fill := Lightbox.st (Lightbox.step r (Lightbox.Click Lightbox.Fill) b) in
  (Lightbox.x fit = 0 /\ Lightbox.y fit = 0 /\ Lightbox.x fill = 0 /\ Lightbox.y fill = 0)%Q
  /\ ((2 * Lightbox.width r < Lightbox.w (Lightbox.st b))%Q -> (Lightbox.z fit < 1 # 2)%Q)
  /\ ((6 * Lightbox.w (Lightbox.st b) < Lightbox.width r)%Q -> (6 < Lightbox.z fill)%Q).
Proof.
  intros Hw Hh fit fill. split; [cbn; auto|]. split; intros H.
  - apply Qle_lt_trans with (Lightbox.width r / Lightbox.w (Lightbox.st b))%Q;
      [apply Q.le_min_l|].
    apply Qlt_shift_div_r; [exact Hw|]. lra.
  - apply Qlt_le_trans with (Lightbox.width r / Lightbox.w (Lightbox.st b))%Q;
      [|apply Q.le_max_l].
    apply Qlt_shift_div_l; [exact Hw|]. lra.
Qed.

(** X12: whatever handlers run after the lightbox is set up, the state
    keeps [min = .5] and [max = 6]; and once an image was opened, the width
    and height in the state are never zero, so Fit and Fill never divide by
    zero. *)
Theorem lightbox_reachable_invariant
    (evs evs' : list (Lightbox.Wrap * Lightbox.Event))
    (r : Lightbox.Wrap) (nw nh : Q) :
  Lightbox.bounds_ok (Lightbox.st (Lightbox.run evs Lightbox.initial))
  /\ Lightbox.opened
       (Lightbox.st (Lightbox.run (evs ++ (r, Lightbox.Opened nw nh) :: evs')
                                  Lightbox.initial)).
Proof.
  split.
  - apply LightboxMore.run_bounds_ok, LightboxFacts.initial_bounds_ok.
  - rewrite LightboxMore.run_app.
    change (Lightbox.run ((r, Lightbox.Opened nw nh) :: evs') ?b)
      with (Lightbox.run evs' (Lightbox.step r (Lightbox.Opened nw nh) b)).
    apply LightboxMore.run_opened, LightboxMore.step_opened.
    right. exists nw, nh. reflexivity.
Qed.

(** X13: a pointer move pans only while a pointer is down: after a
    [pointerup], and whatever handlers other than [pointerdown] run next, a
    [pointermove] leaves scale and offsets as they are. *)
Theorem lightbox_pointerup_stops_pan
    (r r' : Lightbox.Wrap) (evs : list (Lightbox.Wrap * Lightbox.Event))
    (b : Lightbox.Box) (cx cy : Q) :
  Forall (fun re => Lightbox.noPointerDown (snd re)) evs ->
  let b' := Lightbox.run ((r, Lightbox.PointerUp) :: evs) b in
  Lightbox.step r' (Lightbox.PointerMove cx cy) b' = b'.
Proof.
  intros Hall b'.
  assert (Lightbox.drags b' = []) as Hd.
  { apply (LightboxMore.run_no_drag evs (Lightbox.step r Lightbox.PointerUp b) Hall).
    reflexivity. }
  cbn [Lightbox.step]. rewrite Hd. cbn [fold_left]. destruct b'; reflexivity.
Qed.

(** ** Metadata cache: invariants of the manager *)

Module CacheMore.

Import MetadataCache.

Lemma keys_mapSet (k : string) (v : MetadataRecord) (m : JsMap) :
  keys (mapSet k v m) = keys m
  \/ ((k ∉ keys m) /\ keys (mapSet k v m) = keys m ++ [k]).
Proof.
  unfold keys.
  induction m as [|[k' v'] m IH]; [right; split; [apply not_elem_of_nil|reflexivity]|].
  cbn [mapSet]. destruct (String.eqb k' k) eqn:Hk.
  - apply String.eqb_eq in Hk. subst k'. left. reflexivity.
  - apply String.eqb_neq in Hk. cbn [map fst app]. destruct IH as [IH|[Hnin IH]].
    + left. rewrite IH. reflexivity.
    + right. split.
      * apply not_elem_of_cons. split; [congruence|exact Hnin].
      * rewrite IH. reflexivity.
Qed.

Lemma NoDup_mapSet (k : string) (v : MetadataRecord) (m : JsMap) :
  NoDup (keys m) -> NoDup (keys (mapSet k v m)).
Proof.
  intros H. destruct (keys_mapSet k v m) as [->|[Hnin ->]]; [exact H|].
  apply NoDup_app. split; [exact H|]. split; [|apply NoDup_singleton].
  intros x Hx Hin. apply list_elem_of_singleton in Hin. congruence.
Qed.

Lemma length_mapSet (k : string) (v : MetadataRecord) (m : JsMap) :
  (size (mapSet k v m) <= size m + 1)%Z.
Proof.
  unfold size. induction m as [|[k' v'] m IH]; [cbn; lia|].
  cbn [mapSet]. destruct (String.eqb k' k); cbn [length] in *; lia.
Qed.

Lemma mapGet_mapSet (k : string) (v : MetadataRecord) (m : JsMap) :
  mapGet k (mapSet k v m) = Some v.
Proof.
  induction m as [|[k' v'] m IH]; cbn [mapSet mapGet].
  - rewrite String.eqb_refl. reflexivity.
  - destruct (String.eqb k' k) eqn:Hk; cbn [mapGet].
    + rewrite String.eqb_refl. reflexivity.
    + rewrite Hk. exact IH.
Qed.

Lemma NoDup_prune (c : JsMap) : NoDup (keys c) -> NoDup (keys (prune c)).
Proof.
  intros H. destruct (Z_le_gt_dec (size c) CACHE_MAX_SIZE) as [Hle|Hgt].
  - rewrite (CacheFacts.prune_below c Hle). exact H.
  - destruct (CacheFacts.prune_above c H) as [-> _]; [lia|].
    apply CacheFacts.NoDup_keys_drop. exact H.
Qed.

Lemma NoDup_setAndSave (url : string) (rec : MetadataRecord) (now : Z)
    (out : Outcome) (m : Manager) :
  NoDup (keys (cache m)) -> NoDup (keys (cache (setAndSave url rec now out m))).
Proof.
  intros H. unfold setAndSave, saveThrottled. cbn [lastCall cache].
  destruct (now - lastCall m <? 1000)%Z; cbn [cache].
  - apply NoDup_mapSet. exact H.
  - unfold save. destruct out; try (apply NoDup_prune, NoDup_mapSet; exact H).
    apply NoDup_nil_2.
Qed.

Lemma NoDup_apply (op : CacheOps.Op) (m : Manager) :
  NoDup (keys (cache m)) -> NoDup (keys (cache (CacheOps.apply op m))).
Proof.
  intros H. destruct op as [url [e|md] now out|url wd ht now out|]; cbn [CacheOps.apply Probe.settle].
  - exact H.
  - unfold onMetadata. apply NoDup_setAndSave. exact H.
  - unfold noteImageSize. destruct (Str.isEmpty url); [exact H|].
    destruct (falsy _ || falsy _); [apply NoDup_setAndSave|]; exact H.
  - apply NoDup_nil_2.
Qed.

(** Below the cap and without a quota error, adding a record leaves a cache
    that holds it, whether the save runs or is dropped. *)
Lemma cache_setAndSave (url : string) (rec : MetadataRecord) (now : Z)
    (out : Outcome) (m : Manager) :
  (size (cache m) < CACHE_MAX_SIZE)%Z -> out <> QuotaExceededError ->
  cache (setAndSave url rec now out m) = mapSet url rec (cache m).
Proof.
  intros Hsize Hout. unfold setAndSave, saveThrottled. cbn [lastCall cache].
  destruct (now - lastCall m <? 1000)%Z; cbn [cache]; [reflexivity|].
  pose proof (length_mapSet url rec (cache m)) as Hlen.
  unfold save. rewrite CacheFacts.prune_below by lia.
  destruct out; [reflexivity|congruence|reflexivity].
Qed.

End CacheMore.

Lemma run_keys_distinct (ops : list CacheOps.Op) :
  NoDup (MetadataCache.keys
           (MetadataCache.cache (CacheOps.run ops MetadataCache.create))).
Proof.
  unfold CacheOps.run.
  assert (NoDup (MetadataCache.keys (MetadataCache.cache MetadataCache.create))) as H
    by apply NoDup_nil_2.
  revert H. generalize MetadataCache.create.
  induction ops as [|op ops IH]; intros m H; [exact H|].
  cbn [fold_left]. apply IH. apply CacheMore.NoDup_apply. exact H.
Qed.

(** X14: whatever probe results, image measurements and cleanups a new
    manager has gone through, a record added when the last save that ran is
    at least a second old leaves at most 10,000 records in the cache,
    whether or not its URL was cached before and whatever the outcome of
    the write. *)
Theorem cache_bounded_after_save
    (ops : list CacheOps.Op) (url : string) (rec : MetadataCache.MetadataRecord)
    (now : Z) (out : MetadataCache.Outcome) :
  let m := CacheOps.run ops MetadataCache.create in
  (1000 <= now - MetadataCache.lastCall m)%Z ->
  (MetadataCache.size (MetadataCache.cache (MetadataCache.setAndSave url rec now out m))
   <= MetadataCache.CACHE_MAX_SIZE)%Z.
Proof.
  intros m Hthr. unfold MetadataCache.setAndSave, MetadataCache.saveThrottled.
  cbn [MetadataCache.lastCall MetadataCache.cache].
  destruct (Z.ltb_spec (now - MetadataCache.lastCall m) 1000) as [Hlt|_]; [lia|].
  cbn [MetadataCache.cache]. unfold MetadataCache.save.
  assert (MetadataCache.size
            (MetadataCache.prune (MetadataCache.mapSet url rec (MetadataCache.cache m)))
          <= MetadataCache.CACHE_MAX_SIZE)%Z as Hp.
  { apply CacheFacts.prune_within, CacheMore.NoDup_mapSet, run_keys_distinct. }
  destruct out; [exact Hp|discriminate|exact Hp].
Qed.

(** X15: the first measurement of an image sticks: below the cap and
    without a quota error, [noteImageSize] with a non-zero width and height
    for a URL whose record has no width or no height stores both and keeps
    the other fields, and every later [noteImageSize] for that URL changes
    nothing. *)
Theorem noteImageSize_first_wins
    (url : string) (w1 h1 now1 w2 h2 now2 : Z)
    (out1 out2 : MetadataCache.Outcome) (m : MetadataCache.Manager) :
  url <> "" ->
  (MetadataCache.size (MetadataCache.cache m) < MetadataCache.CACHE_MAX_SIZE)%Z ->
  out1 <> MetadataCache.QuotaExceededError ->
  (w1 <> 0)%Z -> (h1 <> 0)%Z ->
  MetadataCache.falsy (MetadataCache.width (MetadataCache.get url m))
  || MetadataCache.falsy (MetadataCache.height (MetadataCache.get url m)) = true ->
  let m1 := MetadataCache.noteImageSize url w1 h1 now1 out1 m in
  MetadataCache.get url m1
  = MetadataCache.mkRecord
      (MetadataCache.bytes (MetadataCache.get url m))
      (MetadataCache.mtime (MetadataCache.get url m))
      (MetadataCache.contentType (MetadataCache.get url m))
      (MetadataCache.fetchedAt (MetadataCache.get url m))
      (Some w1) (Some h1)
  /\ MetadataCache.noteImageSize url w2 h2 now2 out2 m1 = m1.
Proof.
  intros Hurl Hsize Hout Hw Hh Hfalsy m1.
  assert (Str.isEmpty url = false) as He by (destruct url; [congruence|reflexivity]).
  assert (MetadataCache.get url m1
          = MetadataCache.mkRecord
              (MetadataCache.bytes (MetadataCache.get url m))
              (MetadataCache.mtime (MetadataCache.get url m))
              (MetadataCache.contentType (MetadataCache.get url m))
              (MetadataCache.fetchedAt (MetadataCache.get url m))
              (Some w1) (Some h1)) as Hget.
  { subst m1. unfold MetadataCache.noteImageSize. rewrite He.
    fold (MetadataCache.get url m). rewrite Hfalsy.
    unfold MetadataCache.get at 1.
    rewrite (CacheMore.cache_setAndSave _ _ _ _ _ Hsize Hout), CacheMore.mapGet_mapSet.
    reflexivity. }
  split; [exact Hget|].
  unfold MetadataCache.noteImageSize at 1. rewrite He.
  fold (MetadataCache.get url m1). rewrite Hget.
  cbn [MetadataCache.width MetadataCache.height MetadataCache.falsy].
  destruct (Z.eqb_spec w1 0) as [|_]; [contradiction|].
  destruct (Z.eqb_spec h1 0) as [|_]; [contradiction|]. reflexivity.
Qed.

(** X16: a probe result replaces the record of its URL: below the cap and
    without a quota error, after the result of a successful probe is stored
    the record has the probe's fields and the time of storing, and no width
    and no height, whatever [noteImageSize] had stored before. *)
Theorem probe_result_drops_dimensions
    (toISOString : string -> option string) (invalidDateMessage : string)
    (a : Probe.Attempt) (md : MetadataCache.MetadataRecord)
    (url : string) (now : Z) (out : MetadataCache.Outcome)
    (m : MetadataCache.Manager) :
  Probe.tryBlock toISOString invalidDateMessage a = Probe.Returned md ->
  (MetadataCache.size (MetadataCache.cache m) < MetadataCache.CACHE_MAX_SIZE)%Z ->
  out <> MetadataCache.QuotaExceededError ->
  MetadataCache.get url (Probe.settle url (Probe.Returned md) now out m)
  = MetadataCache.mkRecord (MetadataCache.bytes md) (MetadataCache.mtime md)
                           (MetadataCache.contentType md) (Some now) None None.
Proof.
  intros Htry Hsize Hout. cbn [Probe.settle]. unfold MetadataCache.onMetadata.
  unfold MetadataCache.get.
  rewrite (CacheMore.cache_setAndSave _ _ _ _ _ Hsize Hout), CacheMore.mapGet_mapSet.
  assert (MetadataCache.width md = None /\ MetadataCache.height md = None) as [-> ->];
    [|reflexivity].
  unfold Probe.tryBlock in Htry.
  destruct a as [|n msg|ok status cl lm ct]; try discriminate.
  destruct (negb ok); [discriminate|].
  destruct (Probe.truthy lm) as [s|].
  - destruct (toISOString s); [|discriminate]. injection Htry as <-. split; reflexivity.
  - injection Htry as <-. split; reflexivity.
Qed.

(** ** Metadata probe: retries *)

Lemma includes_first_char (s p : string) (c : ascii) :
  Str.includes s (String c "") = false -> Str.includes s (String c p) = false.
Proof.
  induction s as [|b s IH]; [reflexivity|].
  rewrite includes_char_cons, orb_false_iff. intros [Hb Hs].
  cbn [Str.includes Str.startsWith]. rewrite Hb. cbn [andb orb]. apply IH. exact Hs.
Qed.

Lemma includes_char_app (s t : string) (c : ascii) :
  Str.includes (s +:+ t) (String c "")
  = Str.includes s (String c "") || Str.includes t (String c "").
Proof.
  induction s as [|b s IH]; [reflexivity|].
  rewrite append_cons, !includes_char_cons, IH, orb_assoc. reflexivity.
Qed.

Lemma uint_no_letter (d : Decimal.uint) :
  Str.includes (NilEmpty.string_of_uint d) "n" = false.
Proof.
  induction d; cbn [NilEmpty.string_of_uint]; [reflexivity|..];
    rewrite includes_char_cons, IHd; reflexivity.
Qed.

Lemma dec_no_letter (n : Z) : Str.includes (Format.dec n) "n" = false.
Proof.
  unfold Format.dec, NilZero.string_of_int.
  destruct (Z.to_int n) as [d|d]; [|rewrite includes_char_cons; cbn [orb]];
    unfold NilZero.string_of_uint; destruct d; try reflexivity;
    apply (uint_no_letter (_ d)).
Qed.

Lemma http_message_not_network (status : Z) :
  Str.includes ("HTTP " +:+ Format.dec status) "network" = false.
Proof.
  apply includes_first_char. rewrite includes_char_app, dec_no_letter. reflexivity.
Qed.

(** X17: the retry policy of [fetchMetadata]: a call makes at most
    [retries + 1] requests and waits once before each request but the
    first; a request that succeeds, times out, or is answered with an HTTP
    error status is the last one (a timeout is reported as "Request
    timeout", an error status as "HTTP" and the status); and a further
    request is made only after an error named [TypeError] or with "network"
    in its message. *)
Theorem fetchMetadata_retry_policy
    (toISOString : string -> option string) (invalidDateMessage : string)
    (env : Datatypes.nat -> Probe.Attempt) (retries k : Datatypes.nat) :
  let r := Probe.fetchMetadata toISOString invalidDateMessage env retries k in
  (1 <= Probe.fetches r <= retries + 1)%nat
  /\ Probe.fetches r = S (Probe.waits r)
  /\ (forall md,
        Probe.tryBlock toISOString invalidDateMessage (env k) = Probe.Returned md ->
        r = Probe.mkRun (Probe.Returned md) 1 0)
  /\ (env k = Probe.Aborted ->
        r = Probe.mkRun (Probe.Threw (Probe.mkError "Error" "Request timeout")) 1 0)
  /\ (forall status cl lm ct,
        env k = Probe.Responded false status cl lm ct ->
        r = Probe.mkRun
              (Probe.Threw (Probe.mkError "Error" ("HTTP " +:+ Format.dec status))) 1 0)
  /\ ((1 < Probe.fetches r)%nat ->
        exists e,
          Probe.tryBlock toISOString invalidDateMessage (env k) = Probe.Threw e
          /\ Probe.errName e <> "AbortError"
          /\ (Probe.errName e = "TypeError"
              \/ Str.includes (Probe.errMessage e) "network" = true)).
Proof.
  cbv zeta. split; [|split; [|split; [|split; [|split]]]].
  - revert k. induction retries as [|n IH]; intros k; cbn [Probe.fetchMetadata];
      destruct (Probe.tryBlock _ _ (env k)) as [e|md]; cbn [Probe.fetches]; try lia;
      destruct (String.eqb (Probe.errName e) "AbortError"); cbn [Probe.fetches]; try lia.
    destruct (Probe.isNetworkError e); cbn [Probe.fetches]; [|lia].
    specialize (IH (S k)). lia.
  - revert k. induction retries as [|n IH]; intros k; cbn [Probe.fetchMetadata];
      destruct (Probe.tryBlock _ _ (env k)) as [e|md]; cbn [Probe.fetches Probe.waits];
      try reflexivity;
      destruct (String.eqb (Probe.errName e) "AbortError");
      cbn [Probe.fetches Probe.waits]; try reflexivity.
    destruct (Probe.isNetworkError e); cbn [Probe.fetches Probe.waits]; [|reflexivity].
    rewrite (IH (S k)). reflexivity.
  - intros md Hmd. destruct retries; cbn [Probe.fetchMetadata]; rewrite Hmd; reflexivity.
  - intros Hk. destruct retries; cbn [Probe.fetchMetadata]; rewrite Hk; reflexivity.
  - intros status cl lm ct Hk.
    destruct retries; cbn [Probe.fetchMetadata]; rewrite Hk;
      cbn [Probe.tryBlock negb Probe.errName]; [reflexivity|].
    change (String.eqb "Error" "AbortError") with false. cbv iota.
    unfold Probe.isNetworkError. cbn [Probe.errName Probe.errMessage].
    rewrite http_message_not_network. reflexivity.
  - destruct retries; cbn [Probe.fetchMetadata];
      destruct (Probe.tryBlock _ _ (env k)) as [e|md]; cbn [Probe.fetches]; try lia;
      destruct (String.eqb (Probe.errName e) "AbortError") eqn:Ha;
      cbn [Probe.fetches]; try lia.
    destruct (Probe.isNetworkError e) eqn:Hn; cbn [Probe.fetches]; [|lia].
    intros _. exists e. split; [reflexivity|].
    split; [apply String.eqb_neq; exact Ha|].
    unfold Probe.isNetworkError in Hn. apply orb_true_iff in Hn as [Hn|Hn]; [left|right; exact Hn].
    apply String.eqb_eq. exact Hn.
Qed.

(** ** Throttle *)

Lemma ran_call {A B : Type} (fn : A -> B) (ms now : Z) (arg : A)
    (calls : list (Z * A)) (lastCall : Z) :
  Throttle.ran ms ((now, arg) :: calls) lastCall =
  match Throttle.call fn ms now arg lastCall with
  | (Some _, t) => now :: Throttle.ran ms calls t
  | (None, t) => Throttle.ran ms calls t
  end.
Proof.
  unfold Throttle.call. cbn [Throttle.ran]. destruct (now - lastCall <? ms)%Z; reflexivity.
Qed.

(** [saveThrottled] is [throttle(save, 1000)]. *)
Lemma saveThrottled_call (now : Z) (out : MetadataCache.Outcome)
    (m : MetadataCache.Manager) :
  MetadataCache.saveThrottled now out m =
  match Throttle.call (MetadataCache.save out) 1000 now (MetadataCache.cache m)
                      (MetadataCache.lastCall m) with
  | (Some c, t) => MetadataCache.mkManager c t
  | (None, _) => m
  end.
Proof.
  unfold MetadataCache.saveThrottled, Throttle.call.
  destruct (now - MetadataCache.lastCall m <? 1000)%Z; reflexivity.
Qed.

(** X18: a throttled function runs only at times of calls, two runs are
    never less than [ms] apart, and the first run is at least [ms] after
    the initial [lastCall]; a call that comes [ms] or more after the last
    run does run. *)
Theorem throttle_spacing {A : Type} (ms : Z) (calls : list (Z * A)) (lastCall : Z) :
  Throttle.spaced ms lastCall (Throttle.ran ms calls lastCall)
  /\ (forall t, In t (Throttle.ran ms calls lastCall) -> In t (map fst calls))
  /\ (forall now arg calls',
        calls = (now, arg) :: calls' -> (ms <= now - lastCall)%Z ->
        Throttle.ran ms calls lastCall = now :: Throttle.ran ms calls' now).
Proof.
  split; [|split].
  - revert lastCall. induction calls as [|[now arg] calls IH]; intros lastCall;
      cbn [Throttle.ran]; [exact I|].
    destruct (Z.ltb_spec (now - lastCall) ms) as [Hlt|Hge]; [apply IH|].
    cbn [Throttle.spaced]. split; [exact Hge|apply IH].
  - revert lastCall. induction calls as [|[now arg] calls IH]; intros lastCall t;
      cbn [Throttle.ran map fst]; [intros []|].
    destruct (now - lastCall <? ms)%Z.
    + intros H. right. exact (IH _ _ H).
    + intros [H|H]; [left; exact H|right; exact (IH _ _ H)].
  - intros now arg calls' -> Hge. cbn [Throttle.ran].
    destruct (Z.ltb_spec (now - lastCall) ms) as [Hlt|_]; [lia|reflexivity].
Qed.

(** ** Configurable limits *)

Module LimitsFacts.

Import Limits.

Lemma takeDigits_uint (d : Decimal.uint) :
  takeDigits (NilEmpty.string_of_uint d) = NilEmpty.string_of_uint d.
Proof.
  induction d; cbn [NilEmpty.string_of_uint takeDigits]; [reflexivity|..];
    match goal with
    | |- (if isDigit ?c then _ else _) = _ => change (isDigit c) with true
    end; cbv iota; rewrite IHd; reflexivity.
Qed.

Lemma digitsValue_nonempty (s : string) :
  s <> "" ->
  digitsValue s = match NilEmpty.uint_of_string s with
                  | Some d => Some (Z.of_uint d)
                  | None => None
                  end.
Proof. destruct s; [congruence|reflexivity]. Qed.

Lemma parseInt_unsigned (c : ascii) (rest : string) :
  Str.is_space c = false -> c <> "-"%char -> c <> "+"%char ->
  parseInt (Prefs.JStr (String c rest)) = digitsValue (takeDigits (String c rest)).
Proof.
  intros Hs Hm Hp. unfold parseInt. cbn [Prefs.toString Str.trimStart]. rewrite Hs.
  destruct c as [[] [] [] [] [] [] [] []]; try reflexivity; congruence.
Qed.

Lemma string_of_uint_nonempty (d : Decimal.uint) :
  d <> Decimal.Nil -> NilEmpty.string_of_uint d <> "".
Proof. destruct d; [congruence|..]; discriminate. Qed.

(** [parseInt] reads back the decimal text of a number without sign. *)
Lemma parseInt_uint (d : Decimal.uint) :
  d <> Decimal.Nil ->
  parseInt (Prefs.JStr (NilEmpty.string_of_uint d)) = Some (Z.of_uint d).
Proof.
  intros Hd.
  assert (parseInt (Prefs.JStr (NilEmpty.string_of_uint d))
          = digitsValue (takeDigits (NilEmpty.string_of_uint d))) as ->.
  { destruct d; [congruence|..]; cbn [NilEmpty.string_of_uint];
      apply parseInt_unsigned; (reflexivity || discriminate). }
  rewrite takeDigits_uint, (digitsValue_nonempty _ (string_of_uint_nonempty d Hd)).
  rewrite NilEmpty.usu. reflexivity.
Qed.

(** [parseInt(String(n), 10)] is [n] for a number that is not negative. *)
Lemma parseInt_toString (n : Z) :
  (0 <= n)%Z -> parseInt (Prefs.JStr (Prefs.toString (Prefs.JNum n))) = Some n.
Proof.
  intros Hn. destruct n as [|p|p]; [reflexivity| |lia].
  cbn [Prefs.toString Z.to_int NilZero.string_of_int]. unfold NilZero.string_of_uint.
  pose proof (DecimalPos.Unsigned.to_uint_nonnil p) as Hnn.
  assert (parseInt (Prefs.JStr (NilEmpty.string_of_uint (Pos.to_uint p)))
          = Some (Z.pos p)) as H.
  { rewrite (parseInt_uint _ Hnn). unfold Z.of_uint.
    rewrite DecimalPos.Unsigned.of_to. reflexivity. }
  destruct (Pos.to_uint p); [congruence|..]; exact H.
Qed.

Lemma parseInt_JNum (n : Z) : parseInt (Prefs.JNum n) = parseInt (Prefs.JStr (Prefs.toString (Prefs.JNum n))).
Proof. reflexivity. Qed.

Lemma limitValue_range (input : string) (current lo hi : Z) :
  (lo <= hi)%Z ->
  exists v, limitValue input (Some current) lo hi = Some v /\ (lo <= v <= hi)%Z.
Proof.
  intros Hle. unfold limitValue, orNum.
  destruct (parseInt (Prefs.JStr input)) as [n|]; [destruct (n =? 0)%Z|];
    cbn [clamp]; eexists; (split; [reflexivity|lia]).
Qed.

End LimitsFacts.

(** X19: the limit chosen in the Limits dialog is the limit after the
    reload, with either storage: for any answer typed into the prompt, the
    stored value is a number between 100 and 50000 (the answer's leading
    integer when it has one that is not zero, else the current limit,
    clamped), and [MAX_ITEMS_PAGE] computed from the new storage is that
    number. *)
Theorem limits_dialog_roundtrip (input : string) (current : Z) :
  exists v,
    Limits.limitValue input (Some current) 100 50000 = Some v
    /\ (100 <= v <= 50000)%Z
    /\ (forall st : Prefs.GMStore,
          Limits.MAX_ITEMS_PAGE (Limits.askMaxItems (Some input) current st) = Some v)
    /\ (forall st : Prefs.LocalStorage,
          Limits.MAX_ITEMS_PAGE (Limits.askMaxItems (Some input) current st) = Some v).
Proof.
  destruct (LimitsFacts.limitValue_range input current 100 50000) as [v [Hv Hr]]; [lia|].
  exists v. split; [exact Hv|]. split; [exact Hr|].
  assert (Limits.clamp (Limits.parseInt (Prefs.JNum v)) 100 50000 = Some v) as Hback.
  { rewrite LimitsFacts.parseInt_JNum, LimitsFacts.parseInt_toString by lia.
    cbn [Limits.clamp]. f_equal. lia. }
  split; intros st; unfold Limits.askMaxItems; rewrite Hv;
    unfold Limits.MAX_ITEMS_PAGE, Prefs.getPref, Prefs.setPref;
    cbn [Prefs.storageGet Prefs.storageSet Prefs.GM_storage Prefs.local_storage];
    rewrite lookup_insert_eq.
  - exact Hback.
  - rewrite <- LimitsFacts.parseInt_JNum. exact Hback.
Qed.

(** ** Formatting *)




(** X21: [formatDate] by the age of the date in milliseconds: under a
    minute, and for every date in the future, "Just now"; then whole
    minutes from 1 to 59, whole hours from 1 to 23, whole days from 1 to 6,
    and from seven days on the locale date; a missing, empty or invalid
    date gives a dash. *)
Theorem formatDate_by_age
    (parseDate : string -> option Z) (toLocaleDateString : Z -> string)
    (s : string) (now : Z) :
  Format.formatDate parseDate toLocaleDateString None now = Format.emdash
  /\ (s = "" \/ parseDate s = None ->
      Format.formatDate parseDate toLocaleDateString (Some s) now = Format.emdash)
  /\ forall d, s <> "" -> parseDate s = Some d ->
       let age := (now - d)%Z in
       let out := Format.formatDate parseDate toLocaleDateString (Some s) now in
       ((age < 60000)%Z -> out = "Just now")
       /\ ((60000 <= age < 3600000)%Z ->
           out = Format.dec (age / 60000) +:+ "m ago" /\ (1 <= age / 60000 <= 59)%Z)
       /\ ((3600000 <= age < 86400000)%Z ->
           out = Format.dec (age / 3600000) +:+ "h ago" /\ (1 <= age / 3600000 <= 23)%Z)
       /\ ((86400000 <= age < 604800000)%Z ->
           out = Format.dec (age / 86400000) +:+ "d ago" /\ (1 <= age / 86400000 <= 6)%Z)
       /\ ((604800000 <= age)%Z -> out = toLocaleDateString d).
Proof.
  split; [reflexivity|]. split.
  - intros [->|H]; [reflexivity|]. unfold Format.formatDate.
    destruct (Str.isEmpty s); [reflexivity|]. rewrite H. reflexivity.
  - intros d Hs Hd age out. subst out. unfold Format.formatDate.
    assert (Str.isEmpty s = false) as -> by (destruct s; [congruence|reflexivity]).
    rewrite Hd. cbv zeta. fold age.
    change (1000 * 60 * 60 * 24)%Z with 86400000%Z.
    change (1000 * 60 * 60)%Z with 3600000%Z.
    change (1000 * 60)%Z with 60000%Z.
    pose proof (Z.mul_div_le age 86400000 ltac:(lia)) as D1.
    pose proof (Z.mul_succ_div_gt age 86400000 ltac:(lia)) as D2.
    pose proof (Z.mul_div_le age 3600000 ltac:(lia)) as H1.
    pose proof (Z.mul_succ_div_gt age 3600000 ltac:(lia)) as H2.
    pose proof (Z.mul_div_le age 60000 ltac:(lia)) as M1.
    pose proof (Z.mul_succ_div_gt age 60000 ltac:(lia)) as M2.
    split; [|split; [|split; [|split]]]; intros Hage;
      destruct (Z.ltb_spec (age / 86400000) 1);
      destruct (Z.ltb_spec (age / 3600000) 1);
      destruct (Z.ltb_spec (age / 60000) 1);
      destruct (Z.ltb_spec (age / 86400000) 7);
      try reflexivity; try lia; (split; [reflexivity|lia]).
Qed.

(** ** Navigation *)

Module NavFacts.

Import Nav.

Lemma chars_app (s t : string) :
  list_ascii_of_string (s +:+ t) = list_ascii_of_string s ++ list_ascii_of_string t.
Proof.
  induction s as [|c s IH]; [reflexivity|].
  rewrite append_cons. cbn [list_ascii_of_string app]. rewrite IH. reflexivity.
Qed.

Lemma endsWithChar_snoc (c : ascii) (s : string) :
  Str.endsWithChar c (s +:+ String c "") = true.
Proof.
  induction s as [|a s IH]; [cbn; apply Ascii.eqb_refl|].
  rewrite append_cons. cbn [Str.endsWithChar].
  destruct (s +:+ String c "") eqn:Hs; [destruct s; discriminate|exact IH].
Qed.

(** No slash among the characters of [s]. *)
Lemma no_slash_chars (s : string) :
  Str.includes s "/" = false ->
  Forall (fun c => isSlash c = false) (list_ascii_of_string s).
Proof.
  induction s as [|a s IH]; [constructor|].
  rewrite includes_char_cons, orb_false_iff. intros [Ha Hs].
  cbn [list_ascii_of_string]. constructor; [|exact (IH Hs)].
  unfold isSlash. rewrite Ascii.eqb_sym. exact Ha.
Qed.

Lemma dropNonSlash_app (l r : list ascii) :
  Forall (fun c => isSlash c = false) l ->
  dropNonSlash (l ++ "/"%char :: r) = "/"%char :: r.
Proof.
  induction 1 as [|c l Hc _ IH]; [reflexivity|].
  cbn [app dropNonSlash]. rewrite Hc. exact IH.
Qed.

(** Removing the last segment of a path that ends with a segment [s] and a
    slash. *)
Lemma dropLastSegment_dir (p s : string) :
  s <> "" -> Str.includes s "/" = false ->
  dropLastSegment ((p +:+ "/") +:+ (s +:+ "/")) = p +:+ "/".
Proof.
  intros Hne Hns. unfold dropLastSegment.
  rewrite !chars_app, !rev_app_distr. cbn [list_ascii_of_string rev app].
  pose proof (no_slash_chars s Hns) as Hall.
  apply Forall_rev in Hall.
  destruct (rev (list_ascii_of_string s)) as [|c rs] eqn:Hrev.
  { exfalso. apply Hne. rewrite <- (string_of_list_ascii_of_string s).
    rewrite <- (rev_involutive (list_ascii_of_string s)), Hrev. reflexivity. }
  cbn [app]. inversion Hall as [|? ? Hc Hrs]; subst.
  change (isSlash "/") with true. rewrite Hc. cbn [andb negb].
  change (c :: rs ++ "/"%char :: rev (list_ascii_of_string p))
    with ((c :: rs) ++ "/"%char :: rev (list_ascii_of_string p)).
  rewrite (dropNonSlash_app (c :: rs)) by (constructor; assumption).
  rewrite <- rev_unit, rev_involutive.
  change ["/"%char] with (list_ascii_of_string "/").
  rewrite <- chars_app. apply string_of_list_ascii_of_string.
Qed.

Lemma segsText_snoc (segs : list string) (s : string) :
  segsText (segs ++ [s]) = segsText segs +:+ (s +:+ "/").
Proof.
  induction segs as [|x segs IH]; cbn [app segsText].
  - change ("/" +:+ "") with "/". reflexivity.
  - rewrite IH, !append_assoc. reflexivity.
Qed.

Lemma pathOf_snoc (segs : list string) (s : string) :
  pathOf (segs ++ [s]) = pathOf segs +:+ (s +:+ "/").
Proof. unfold pathOf. rewrite segsText_snoc, append_assoc. reflexivity. Qed.

(** A directory path is a text followed by a slash. *)
Lemma pathOf_dir (segs : list string) : exists p, pathOf segs = p +:+ "/".
Proof.
  induction segs as [|x segs _] using rev_ind; [exists ""; reflexivity|].
  rewrite pathOf_snoc. exists (pathOf segs +:+ x). rewrite append_assoc. reflexivity.
Qed.

Lemma append_eq_slash (p s : string) : s <> "" -> (p +:+ "/") +:+ (s +:+ "/") <> "/".
Proof.
  intros Hs H. destruct p as [|a p].
  - cbn in H. injection H as H. destruct s; [congruence|discriminate].
  - rewrite !append_cons in H. injection H as _ H. destruct p; discriminate.
Qed.

Lemma endsWithChar_app (c : ascii) (t s : string) :
  s <> "" -> Str.endsWithChar c (t +:+ s) = Str.endsWithChar c s.
Proof.
  intros Hs. induction t as [|a t IH]; [reflexivity|].
  rewrite append_cons. cbn [Str.endsWithChar].
  destruct (t +:+ s) eqn:Hts; [|exact IH].
  destruct t; [|discriminate]. rewrite append_nil_l in Hts. congruence.
Qed.

Lemma endsWithChar_none (s : string) :
  Str.includes s "/" = false -> Str.endsWithChar "/" s = false.
Proof.
  induction s as [|c s IH]; [reflexivity|].
  rewrite includes_char_cons, orb_false_iff. intros [Hc Hs].
  cbn [Str.endsWithChar]. destruct s; [rewrite Ascii.eqb_sym; exact Hc|exact (IH Hs)].
Qed.

(** The path [parentUrl] works on, for a directory path and for the path
    of a file in a directory: the path with one slash at its end. *)
Lemma normalised (segs : list string) (s : string) :
  s <> "" -> Str.includes s "/" = false ->
  exists q,
    pathOf segs = q +:+ "/"
    /\ (if Str.endsWithChar "/" (pathOf (segs ++ [s])) then pathOf (segs ++ [s])
        else pathOf (segs ++ [s]) +:+ "/") = (q +:+ "/") +:+ (s +:+ "/")
    /\ (if Str.endsWithChar "/" (pathOf segs +:+ s) then pathOf segs +:+ s
        else (pathOf segs +:+ s) +:+ "/") = (q +:+ "/") +:+ (s +:+ "/").
Proof.
  intros Hne Hns. destruct (pathOf_dir segs) as [q Hq]. exists q.
  split; [exact Hq|]. split.
  - rewrite pathOf_snoc, Hq.
    assert (Str.endsWithChar "/" ((q +:+ "/") +:+ (s +:+ "/")) = true) as ->;
      [|reflexivity].
    rewrite <- append_assoc. apply endsWithChar_snoc.
  - rewrite Hq, (endsWithChar_app "/" _ s Hne), (endsWithChar_none s Hns).
    apply append_assoc.
Qed.

Lemma parentPath_step (segs : list string) (s : string) :
  s <> "" -> Str.includes s "/" = false ->
  parentPath (pathOf (segs ++ [s])) = pathOf segs
  /\ parentPath (pathOf segs +:+ s) = pathOf segs.
Proof.
  intros Hne Hns. destruct (normalised segs s Hne Hns) as (q & Hq & Hd & Hf).
  unfold parentPath. rewrite Hd, Hf, Hq.
  destruct (String.eqb_spec ((q +:+ "/") +:+ (s +:+ "/")) "/") as [E|_];
    [exfalso; exact (append_eq_slash q s Hne E)|].
  split; apply dropLastSegment_dir; assumption.
Qed.

End NavFacts.

(** X22: the parent of a path: for a last segment that is not empty and
    holds no slash, [parentUrl] maps a directory URL with that last segment,
    and equally the URL of a file of that name in the parent, to the URL of
    the parent directory, without query and fragment; the root is its own
    parent. *)
Theorem parentUrl_parent
    (parseURL : string -> option Nav.URL)
    (u hd org q h : string) (segs : list string) (s : string) :
  s <> "" -> Str.includes s "/" = false ->
  (parseURL u = Some (Nav.mkURL hd org (Nav.pathOf (segs ++ [s])) q h)
   \/ parseURL u = Some (Nav.mkURL hd org (Nav.pathOf segs +:+ s) q h) ->
   Nav.parentUrl parseURL u = Some (hd +:+ Nav.pathOf segs))
  /\ (parseURL u = Some (Nav.mkURL hd org "/" q h)
      \/ parseURL u = Some (Nav.mkURL hd org "" q h) ->
      Nav.parentUrl parseURL u = Some (org +:+ "/")).
Proof.
  intros Hne Hns.
  destruct (NavFacts.normalised segs s Hne Hns) as (p & Hp & Hd & Hf).
  assert (forall t, hd +:+ t +:+ "" +:+ "" = hd +:+ t) as Hhref.
  { intros t. f_equal. induction t as [|c t IH]; [reflexivity|].
    rewrite append_cons, IH. reflexivity. }
  split.
  - intros [Hu|Hu]; unfold Nav.parentUrl; rewrite Hu;
      cbn [Nav.pathname Nav.head Nav.origin Nav.search Nav.hash];
      rewrite ?Hd, ?Hf;
      (destruct (String.eqb_spec ((p +:+ "/") +:+ (s +:+ "/")) "/") as [E|_];
       [exfalso; exact (NavFacts.append_eq_slash p s Hne E)|]);
      rewrite (NavFacts.dropLastSegment_dir p s Hne Hns); unfold Nav.href;
      cbn [Nav.pathname Nav.head Nav.search Nav.hash]; rewrite Hhref, Hp; reflexivity.
  - intros [Hu|Hu]; unfold Nav.parentUrl; rewrite Hu; reflexivity.
Qed.

(** X23: going up from a directory: the path [parentUrl] computes for a
    path of segments that are not empty reaches the root after as many
    steps as there are segments and stays there; but a path that ends with
    two slashes is returned unchanged, so going up from it never reaches
    the root. *)
Theorem parentPath_climbs (segs : list string) (p : string) :
  (Forall (fun s => s <> "" /\ Str.includes s "/" = false) segs ->
   Nat.iter (length segs) Nav.parentPath (Nav.pathOf segs) = "/")
  /\ Nav.parentPath "/" = "/"
  /\ Nav.parentPath (p +:+ "//") = p +:+ "//"
  /\ (forall (parseURL : string -> option Nav.URL) (u : string) (url : Nav.URL),
        parseURL u = Some url ->
        exists root,
          Nav.isRootUrl parseURL u = Some root
          /\ Nav.parentUrl parseURL u
             = Some ((if root then Nav.origin url else Nav.head url)
                     +:+ Nav.parentPath (Nav.pathname url))).
Proof.
  split; [|split; [reflexivity|split]]; cycle 2.
  { intros parseURL u url Hu. unfold Nav.isRootUrl, Nav.parentUrl, Nav.parentPath.
    rewrite Hu. cbn [Nav.pathname Nav.head Nav.origin Nav.search Nav.hash].
    eexists. split; [reflexivity|].
    assert (forall t, Nav.href (Nav.mkURL (Nav.head url) (Nav.origin url) t "" "")
                      = Nav.head url +:+ t) as Hhref.
    { intros t. unfold Nav.href. cbn [Nav.pathname Nav.head Nav.search Nav.hash].
      f_equal. induction t as [|c t IH]; [reflexivity|].
      rewrite append_cons, IH. reflexivity. }
    destruct (Nav.pathname url) as [|a rest] eqn:Hp; [reflexivity|].
    destruct (String.eqb_spec (String a rest) "/") as [E|E]; [rewrite E; reflexivity|].
    cbn [orb String.eqb].
    destruct (Str.endsWithChar "/" (String a rest)).
    - destruct (String.eqb_spec (String a rest) "/") as [E'|_]; [congruence|].
      rewrite Hhref. reflexivity.
    - destruct (String.eqb_spec (String a rest +:+ "/") "/") as [E'|_].
      + rewrite append_cons in E'. injection E' as _ E'. destruct rest; discriminate.
      + rewrite Hhref. reflexivity. }
  - induction segs as [|s segs IH] using rev_ind; [reflexivity|].
    intros Hall. apply Forall_app in Hall as [Hsegs Hs].
    inversion Hs as [|? ? [Hne Hns] _]; subst.
    rewrite length_app, Nat.add_1_r. cbn [length].
    change (Nat.iter (S (length segs)) Nav.parentPath (Nav.pathOf (segs ++ [s])))
      with (Nav.parentPath
              (Nat.iter (length segs) Nav.parentPath (Nav.pathOf (segs ++ [s])))).
    rewrite <- Nat.iter_swap.
    rewrite (proj1 (NavFacts.parentPath_step segs s Hne Hns)). exact (IH Hsegs).
  - unfold Nav.parentPath.
    assert (Str.endsWithChar "/" (p +:+ "//") = true) as ->.
    { change "//" with ("/" +:+ "/"). rewrite <- append_assoc.
      apply NavFacts.endsWithChar_snoc. }
    destruct (String.eqb_spec (p +:+ "//") "/") as [E|_].
    + exfalso. destruct p as [|a p]; [discriminate|].
      rewrite append_cons in E. injection E as _ E. destruct p; discriminate.
    + unfold Nav.dropLastSegment. rewrite NavFacts.chars_app, rev_app_distr. reflexivity.
Qed.

(** ** Build script: failure *)

Lemma readAll_None (fs : Build.FS) (fl : list string) :
  Build.readAll fs fl = None -> exists f, f ∈ fl /\ fs !! f = None.
Proof.
  induction fl as [|f fl IH]; [discriminate|]. cbn [Build.readAll].
  unfold Build.readFileSync. destruct (fs !! f) eqn:Hf.
  - destruct (Build.readAll fs fl); [discriminate|]. intros _.
    destruct (IH eq_refl) as [f' [Hin Hnone]].
    exists f'. split; [apply list_elem_of_further; exact Hin|exact Hnone].
  - intros _. exists f. split; [apply list_elem_of_here|exact Hf].
Qed.

(** X24: the build ends with an uncaught exception exactly when one of the
    seven fragments cannot be read or the write throws. When a fragment
    cannot be read, be it the last one, nothing is written: the file system
    is left as it was. In every case the artifact is the only file the
    build can change. *)
Theorem build_fails_iff_missing (w : Build.WriteOutcome) (fs : Build.FS) :
  (snd (Build.build w fs) = Build.Uncaught <->
     (exists f, f ∈ Build.files /\ fs !! f = None) \/ w <> Build.Written)
  /\ ((exists f, f ∈ Build.files /\ fs !! f = None) -> fst (Build.build w fs) = fs)
  /\ (forall f, f <> Build.artifact -> fst (Build.build w fs) !! f = fs !! f).
Proof.
  split; [split|split].
  - unfold Build.build, Build.output.
    destruct (Build.readAll fs Build.files) eqn:Hr.
    + destruct w as [|[t|]]; cbn [Build.writeFileSync snd]; intros H;
        [discriminate|right; discriminate|right; discriminate].
    + intros _. left. apply readAll_None. exact Hr.
  - intros [[f [Hin Hnone]]|Hw].
    + rewrite (build_missing_fragment w fs f Hin Hnone). reflexivity.
    + unfold Build.build. destruct (Build.output fs); [|reflexivity].
      destruct w as [|[t|]]; [congruence|reflexivity|reflexivity].
  - intros [f [Hin Hnone]]. rewrite (build_missing_fragment w fs f Hin Hnone). reflexivity.
  - intros f Hf. unfold Build.build. destruct (Build.output fs); [|reflexivity].
    destruct w as [|[t|]]; cbn [Build.writeFileSync fst]; try reflexivity;
      apply lookup_insert_ne; congruence.
Qed.

(** * The properties on the sample inputs *)

Lemma parseIndex_selector_priority_witness :
  exists a,
    a ∈ anchors Sample.photos /\ hasHrefAttr a = true
    /\ produced Sample.resolve Sample.decode Sample.base a = Some Sample.firstImage
    /\ (forall a', a' ∈ anchors Sample.photos -> hasHrefAttr a' = true ->
        inPre a' = true -> inPre a = true)
    /\ ((forall a', a' ∈ anchors Sample.photos -> hasHrefAttr a' = true ->
         inPre a' = false) ->
        forall a', a' ∈ anchors Sample.photos -> hasHrefAttr a' = true ->
                   inTable a' = true -> inTable a = true).
Proof.
  apply (parseIndex_selector_priority Sample.resolve Sample.decode NatRef.compare 12000
           Sample.photos Sample.base (Sample.parsed 12000 Sample.photos) KImg
           Sample.firstImage).
  - vm_compute. reflexivity.
  - assert (bucket KImg (Sample.parsed 12000 Sample.photos)
            = Sample.firstImage :: tl (bucket KImg (Sample.parsed 12000 Sample.photos)))
      as -> by (vm_compute; reflexivity).
    apply list_elem_of_here.
Defined.

Lemma parseIndex_entry_shape_witness :
  kind Sample.subDir = KDir /\ name Sample.subDir <> ""
  /\ exists a,
       a ∈ anchors Sample.photos
       /\ url Sample.subDir = abs Sample.resolve (hrefOf a) Sample.base
       /\ isFunctionalLink a = true
       /\ ~ In (hrefOf a) [""; "../"; "./"; "/"]
       /\ (isDirHref (hrefOf a) = true
           /\ type Sample.subDir = Some (getFolderType (name Sample.subDir))
           /\ ext Sample.subDir = None).
Proof.
  apply (parseIndex_entry_shape Sample.resolve Sample.decode NatRef.compare 12000
           Sample.photos Sample.base (Sample.parsed 12000 Sample.photos) KDir
           Sample.subDir).
  - vm_compute. reflexivity.
  - assert (bucket KDir (Sample.parsed 12000 Sample.photos) = [Sample.subDir])
      as -> by (vm_compute; reflexivity).
    apply list_elem_of_here.
Defined.

Lemma parseIndex_complete_below_cap_witness :
  exists e', e' ∈ bucket (kind Sample.subDir) (Sample.parsed 12000 Sample.photos)
             /\ url e' = url Sample.subDir.
Proof.
  apply (parseIndex_complete_below_cap Sample.resolve Sample.decode NatRef.compare 12000
           Sample.photos Sample.base (Sample.parsed 12000 Sample.photos)
           (Sample.link "sub/" "sub/") Sample.subDir).
  - vm_compute. reflexivity.
  - vm_compute. reflexivity.
  - assert (pickAnchors SELECTORS Sample.photos [] = anchors Sample.photos)
      as -> by (vm_compute; reflexivity).
    unfold Sample.photos. cbn [anchors].
    do 4 apply list_elem_of_further. apply list_elem_of_here.
  - vm_compute. reflexivity.
Defined.

Lemma href_query_ignored_witness :
  isDirHref ("a.jpg" +:+ "?" +:+ "v=2") = isDirHref "a.jpg"
  /\ isImgHref ("a.jpg" +:+ "?" +:+ "v=2") = isImgHref "a.jpg"
  /\ isFileHref ("a.jpg" +:+ "?" +:+ "v=2") = isFileHref "a.jpg".
Proof. apply (href_query_ignored "a.jpg" "v=2"); reflexivity. Defined.

Lemma sort_link_yields_no_entry_witness :
  produced Sample.resolve Sample.decode Sample.base Sample.sortLink = None.
Proof.
  apply (sort_link_yields_no_entry Sample.resolve Sample.decode Sample.base Sample.sortLink).
  reflexivity.
Defined.

Lemma looksLikeAutoIndex_variants_nested_witness :
  looksLikeAutoIndex Sample.photos = true.
Proof.
  apply (proj1 looksLikeAutoIndex_variants_nested Sample.photos).
  vm_compute. reflexivity.
Defined.

Lemma lightbox_fit_fill_unclamped_witness :
  (Lightbox.z (Lightbox.st (Lightbox.step Sample.narrow (Lightbox.Click Lightbox.Fit)
                                          Sample.opened)) < 1 # 2)%Q.
Proof.
  apply (proj1 (proj2 (lightbox_fit_fill_unclamped Sample.narrow Sample.opened
                         eq_refl eq_refl))).
  reflexivity.
Defined.

Lemma lightbox_pointerup_stops_pan_witness :
  let b' := Lightbox.run [ (Sample.wrap, Lightbox.PointerUp);
                           (Sample.wrap, Lightbox.Click Lightbox.Plus) ]
                         Sample.grabbed in
  Lightbox.step Sample.wrap (Lightbox.PointerMove 5000 5000) b' = b'.
Proof.
  apply (lightbox_pointerup_stops_pan Sample.wrap Sample.wrap
           [(Sample.wrap, Lightbox.Click Lightbox.Plus)] Sample.grabbed 5000 5000).
  repeat constructor.
Defined.

Lemma noteImageSize_first_wins_witness :
  let m1 := MetadataCache.noteImageSize "http://h/photos/a.jpg" 640 480 1700000001000
              MetadataCache.Stored Sample.manager in
  MetadataCache.get "http://h/photos/a.jpg" m1
  = MetadataCache.mkRecord
      (MetadataCache.bytes (MetadataCache.get "http://h/photos/a.jpg" Sample.manager))
      (MetadataCache.mtime (MetadataCache.get "http://h/photos/a.jpg" Sample.manager))
      (MetadataCache.contentType (MetadataCache.get "http://h/photos/a.jpg" Sample.manager))
      (MetadataCache.fetchedAt (MetadataCache.get "http://h/photos/a.jpg" Sample.manager))
      (Some 640%Z) (Some 480%Z)
  /\ MetadataCache.noteImageSize "http://h/photos/a.jpg" 1 1 1700000002000
       MetadataCache.Stored m1 = m1.
Proof.
  apply (noteImageSize_first_wins "http://h/photos/a.jpg" 640 480 1700000001000
           1 1 1700000002000 MetadataCache.Stored MetadataCache.Stored Sample.manager).
  - discriminate.
  - reflexivity.
  - discriminate.
  - discriminate.
  - discriminate.
  - reflexivity.
Defined.

Lemma probe_result_drops_dimensions_witness :
  MetadataCache.get "http://h/photos/a.jpg"
    (Probe.settle "http://h/photos/a.jpg" (Probe.Returned Sample.probed) 1700000003000
       MetadataCache.Stored
       (MetadataCache.noteImageSize "http://h/photos/a.jpg" 640 480 1700000001000
          MetadataCache.Stored Sample.manager))
  = MetadataCache.mkRecord (Some 123%Z) None (Some "image/png")
                           (Some 1700000003000%Z) None None.
Proof.
  apply (probe_result_drops_dimensions Sample.iso "Invalid time value"
           (Probe.Responded true 200 (Some "123") None (Some "image/png"))
           Sample.probed "http://h/photos/a.jpg" 1700000003000 MetadataCache.Stored).
  - vm_compute. reflexivity.
  - reflexivity.
  - discriminate.
Defined.

Lemma fetchMetadata_retry_policy_witness :
  exists e,
    Probe.tryBlock Sample.iso "Invalid time value" (Sample.flaky 0) = Probe.Threw e
    /\ Probe.errName e <> "AbortError"
    /\ (Probe.errName e = "TypeError"
        \/ Str.includes (Probe.errMessage e) "network" = true).
Proof.
  apply (proj2 (proj2 (proj2 (proj2 (proj2
           (fetchMetadata_retry_policy Sample.iso "Invalid time value" Sample.flaky 1 0)))))).
  vm_compute. lia.
Defined.

Lemma throttle_spacing_witness :
  Throttle.ran 1000 Sample.calls 0 = 1500%Z :: Throttle.ran 1000 (tl Sample.calls) 1500.
Proof.
  apply (proj2 (proj2 (throttle_spacing 1000 Sample.calls 0)) 1500%Z tt (tl Sample.calls)).
  - reflexivity.
  - lia.
Defined.


Lemma formatDate_by_age_witness :
  Format.formatDate Sample.epoch Sample.locale (Some "1970-01-01") 120000
  = Format.dec (120000 / 60000) +:+ "m ago"
  /\ (1 <= 120000 / 60000 <= 59)%Z.
Proof.
  apply (proj1 (proj2 (proj2 (proj2 (formatDate_by_age Sample.epoch Sample.locale
                                       "1970-01-01" 120000))
                              0%Z ltac:(discriminate) eq_refl))).
  lia.
Defined.

Lemma parentUrl_parent_witness :
  Nav.parentUrl Sample.parseURL "http://h/photos/2024/?C=N#top"
  = Some ("http://h" +:+ Nav.pathOf ["photos"]).
Proof.
  apply (proj1 (parentUrl_parent Sample.parseURL "http://h/photos/2024/?C=N#top"
                  "http://h" "http://h" "?C=N" "#top" ["photos"] "2024"
                  ltac:(discriminate) eq_refl)).
  left. reflexivity.
Defined.

Lemma parentPath_climbs_witness :
  Nat.iter (length ["photos"; "2024"]) Nav.parentPath (Nav.pathOf ["photos"; "2024"]) = "/".
Proof.
  apply (proj1 (parentPath_climbs ["photos"; "2024"] "")).
  repeat constructor; discriminate.
Defined.

Lemma build_fails_iff_missing_witness :
  fst (Build.build Build.Written (delete "src/footer.js" Sample.tree))
  = delete "src/footer.js" Sample.tree.
Proof.
  apply (proj1 (proj2 (build_fails_iff_missing Build.Written
                         (delete "src/footer.js" Sample.tree)))).
  exists "src/footer.js". split.
  - unfold Build.files. do 6 apply list_elem_of_further. apply list_elem_of_here.
  - apply lookup_delete_eq.
Defined.

Lemma cache_bounded_after_save_witness :
  (MetadataCache.size
     (MetadataCache.cache
        (MetadataCache.setAndSave "http://h/photos/b.jpg" Sample.probed 5000
           MetadataCache.Stored
           (CacheOps.run [CacheOps.NoteImageSize "http://h/photos/a.jpg" 640 480 2000
                            MetadataCache.Stored]
                         MetadataCache.create)))
   <= MetadataCache.CACHE_MAX_SIZE)%Z.
Proof.
  apply (cache_bounded_after_save
           [CacheOps.NoteImageSize "http://h/photos/a.jpg" 640 480 2000 MetadataCache.Stored]
           "http://h/photos/b.jpg" Sample.probed 5000 MetadataCache.Stored).
  vm_compute. discriminate.
Defined.

(** ** Lightbox on doubles: the pan limits *)

Module Lightbox64Facts.

Import Lightbox64.


Lemma compare_finite_refl (s : bool) (m : positive) (e : Z) :
  SpecFloat.SFcompare (SpecFloat.S754_finite s m e) (SpecFloat.S754_finite s m e) = Some Eq.
Proof.
  cbn. rewrite Z.compare_refl, Pos.compare_cont_refl. destruct s; reflexivity.
Qed.






(** *** Rounding never invents a [NaN] *)














End Lightbox64Facts.




Example lightbox64_drag_stops :
  let ev := Lightbox64.PointerMove (Lightbox64.ofZ 5000) (Lightbox64.ofZ 5000) in
  let s := Lightbox64.st (Lightbox64.step Sample.wrap64 ev Sample.grabbed64) in
  Lightbox64.x s = Lightbox64.ofZ 400 /\ Lightbox64.y s = Lightbox64.ofZ 300.
Proof. vm_compute. split; reflexivity. Qed.
